(** * pi-sugar: the register-level I2C master engine and the battery monitor

    A shallow embedding of the Go sources of the repository:
    - [Rpio]: the I2C engine (package rpio): register constants, the
      memory-mapped register window, [I2cBegin], [setI2cDiv],
      [I2cChipSelectPolarity], [I2cMode], [I2cTransmit], [I2cReceive] and
      [I2cExchange];
    - [PiSugar]: the battery monitor with its rolling history ([appendInt],
      [appendFloat64], [avgInt], [avgFloat64], [Refresh]);
    - [PiSugarDirect]: the battery monitor whose [Refresh] stores the raw
      readings, without history.

    Hardware registers are volatile, so the register window is an interface
    ([Window]) whose reads may answer anything; every access is recorded in
    an event log.  Busy-wait loops take a bound on the number of polls and
    end in [Hang] when the bound is reached.  Go slices are views on arrays
    of a shared heap, so that aliasing between a caller's slice and the
    buffer handed to [I2cExchange] is visible. *)

From Stdlib Require Import ZArith Lia Bool.
From Stdlib Require Import PrimFloat Uint63 SpecFloat FloatOps.
From stdpp Require Import base option list.

Local Open Scope Z_scope.

(** ** Machine integers and floats *)

Definition wrap8 (z : Z) : Z := z mod 2 ^ 8.
Definition wrap16 (z : Z) : Z := z mod 2 ^ 16.
Definition wrap32 (z : Z) : Z := z mod 2 ^ 32.
Definition min_int64 : Z := - 2 ^ 63.
Definition max_int64 : Z := 2 ^ 63 - 1.
(** Go's [int] on a 64-bit target: two's complement wrap-around. *)
Definition wrap_int (z : Z) : Z := (z + 2 ^ 63) mod 2 ^ 64 - 2 ^ 63.

(** [float64(z)] for a Go integer [z] with [|z| < 2^63]: the nearest
    binary64 number. *)
Definition float64_of_Z (z : Z) : float :=
  if z <? 0 then PrimFloat.opp (PrimFloat.of_uint63 (Uint63.of_Z (- z)))
  else PrimFloat.of_uint63 (Uint63.of_Z z).

(** [int64(f)] and [int(f)]: truncation towards zero.  Go leaves the result
    open when the value does not fit; the arm64 conversion instruction
    saturates and sends NaN to zero, which is what is written here. *)
Definition Z_of_float64 (f : float) : Z :=
  match Prim2SF f with
  | S754_zero _ => 0
  | S754_nan => 0
  | S754_infinity s => if s then min_int64 else max_int64
  | S754_finite s m e =>
      let a := if 0 <=? e then Z.pos m * 2 ^ e else Z.pos m / 2 ^ (- e) in
      let v := if s then - a else a in
      Z.max min_int64 (Z.min max_int64 v)
  end.

Module Rpio.

(** ** Constants of the I2C engine *)

Definition I2c0 : Z := 0.
Definition I2c1 : Z := 1.
Definition I2c2 : Z := 2.

Definition controlReg : Z := 0.
Definition statusReg : Z := 1.
Definition dataLengthReg : Z := 2.
Definition slaveAddressReg : Z := 3.
Definition dataFifoReg : Z := 4.
Definition clockDividerReg : Z := 5.
Definition dataDelayReg : Z := 6.
Definition clockStretchTimeoutReg : Z := 7.

Definition controlI2CEnable : Z := 0x00008000.
Definition controlInterruptRX : Z := 0x00000400.
Definition controlInterruptTX : Z := 0x00000200.
Definition controlInterruptDone : Z := 0x00000100.
Definition controlStartTransfer : Z := 0x00000080.
Definition controlClearFifo1 : Z := 0x00000020.
Definition controlClearFifo2 : Z := 0x00000010.
Definition controlRead : Z := 0x00000001.

Definition statusClockStretchTimeout : Z := 0x00000200.
Definition statusError : Z := 0x00000100.
Definition statusRXFull : Z := 0x00000080.
Definition statusTXFull : Z := 0x00000040.
Definition statusRXContainsData : Z := 0x00000020.
Definition statusTXAcceptsData : Z := 0x00000010.
Definition statusRXNeedsRead : Z := 0x00000008.
Definition statusTXNeedsWrite : Z := 0x00000004.
Definition statusTransferDone : Z := 0x00000002.
Definition statusTransferActive : Z := 0x00000001.

Definition FIFOSize : Z := 16.

Definition i2cClockDivider2500 : Z := 2500.
Definition i2cClockDivider626 : Z := 626.
Definition i2cClockDivider150 : Z := 150.
Definition i2cClockDivider148 : Z := 148.

Inductive error : Set := I2cMapError.

(** The constants local to [I2cExchange]. *)
Module Exchange.
Definition ta : Z := Z.shiftl 1 7.
Definition txd : Z := Z.shiftl 1 18.
Definition rxd : Z := Z.shiftl 1 17.
Definition done : Z := Z.shiftl 1 16.
End Exchange.

(** The constant local to [setI2cDiv]. *)
Definition divMask : Z := Z.shiftl 1 16 - 1 - 1.
(** The constant local to [clearI2cTxRxFifo]. *)
Definition clearTxRx : Z := Z.lor (Z.shiftl 1 5) (Z.shiftl 1 4).
(** The constants local to [I2cMode]. *)
Definition cpol : Z := Z.shiftl 1 3.
Definition cpha : Z := Z.shiftl 1 2.

(** ** The register window and the world *)

Inductive PinMode : Set := Input | I2c.

Inductive event : Set :=
| EvRead (reg val : Z)        (* v := i2cMem[reg] *)
| EvWrite (reg val : Z)       (* i2cMem[reg] = val *)
| EvSpiRead (reg val : Z)     (* v := spiMem[reg] *)
| EvPinMode (pin : Z) (m : PinMode)  (* Pin(pin).Mode(m) *)
| EvLog (us : Z).             (* log.Printf of the per-byte wait *)

(** What the sources use of the platform without defining it here: the
    offsets [csReg], [fifoReg] and [clkDivReg] into [i2cMem], the SoC probe
    [isBCM2711], the windows [i2cMem] and [spiMem], and [Pin.Mode].  The
    windows are hardware: a read may answer anything and may change the
    device. *)
Class Window (D : Type) := {
  csReg : Z;
  fifoReg : Z;
  clkDivReg : Z;
  isBCM2711 : bool;
  i2cMem_get : D → Z → Z * D;
  i2cMem_set : D → Z → Z → D;
  spiMem_get : D → Z → Z * D;
  pin_Mode : D → Z → PinMode → D
}.
Global Arguments csReg {D _}.
Global Arguments fifoReg {D _}.
Global Arguments clkDivReg {D _}.
Global Arguments isBCM2711 {D _}.

(** A Go slice of bytes: a view on the array [ptr] of the heap. *)
Record slice : Set := { ptr : nat; off : nat; len : nat; cap : nat }.

Record world (D : Type) : Type := {
  hw : D;
  heap : list (list Z);
  log : list event;
  i2cByteWaitMicroseconds : Z
}.
Global Arguments hw {D}.
Global Arguments heap {D}.
Global Arguments log {D}.
Global Arguments i2cByteWaitMicroseconds {D}.

Inductive outcome (D A : Type) : Type :=
| Ok (a : A) (w : world D)   (* the call returned *)
| Hang (w : world D)         (* a busy-wait outlasted its bound *)
| Panic (w : world D).       (* a run-time panic *)
Global Arguments Ok {D A}.
Global Arguments Hang {D A}.
Global Arguments Panic {D A}.

Definition world_of {D A} (o : outcome D A) : world D :=
  match o with Ok _ w => w | Hang w => w | Panic w => w end.

Definition M (D A : Type) : Type := world D → outcome D A.

Definition ret {D A} (a : A) : M D A := fun w => Ok a w.
Definition bind {D A B} (c : M D A) (k : A → M D B) : M D B :=
  fun w => match c w with
           | Ok a w' => k a w'
           | Hang w' => Hang w'
           | Panic w' => Panic w'
           end.

Notation "'do' x <- c ; k" := (bind c (fun x => k))
  (at level 10, x name, c at level 100, k at level 200).

Section Engine.
Context {D : Type} {W : Window D}.

Definition with_hw (w : world D) (d : D) : world D :=
  {| hw := d; heap := heap w; log := log w;
     i2cByteWaitMicroseconds := i2cByteWaitMicroseconds w |}.
Definition with_heap (w : world D) (h : list (list Z)) : world D :=
  {| hw := hw w; heap := h; log := log w;
     i2cByteWaitMicroseconds := i2cByteWaitMicroseconds w |}.
Definition with_log (w : world D) (l : list event) : world D :=
  {| hw := hw w; heap := heap w; log := l;
     i2cByteWaitMicroseconds := i2cByteWaitMicroseconds w |}.
Definition with_wait (w : world D) (us : Z) : world D :=
  {| hw := hw w; heap := heap w; log := log w;
     i2cByteWaitMicroseconds := us |}.

Definition emit (e : event) : M D unit :=
  fun w => Ok tt (with_log w (log w ++ [e])).

(** [i2cMem[r]] as a value. *)
Definition rd (r : Z) : M D Z := fun w =>
  let '(v, d) := i2cMem_get (hw w) r in
  Ok v (with_log (with_hw w d) (log w ++ [EvRead r v])).

(** [i2cMem[r] = v]. *)
Definition wr (r v : Z) : M D unit := fun w =>
  Ok tt (with_log (with_hw w (i2cMem_set (hw w) r v)) (log w ++ [EvWrite r v])).

(** [spiMem[r]] as a value. *)
Definition spi_rd (r : Z) : M D Z := fun w =>
  let '(v, d) := spiMem_get (hw w) r in
  Ok v (with_log (with_hw w d) (log w ++ [EvSpiRead r v])).

(** [pin.Mode(m)]. *)
Definition Pin_Mode (pin : Z) (m : PinMode) : M D unit := fun w =>
  Ok tt (with_log (with_hw w (pin_Mode (hw w) pin m)) (log w ++ [EvPinMode pin m])).

(** ** Slices *)

(** [data[i]] as a value. *)
Definition slice_get (s : slice) (i : nat) : M D Z := fun w =>
  if (i <? len s)%nat then
    match heap w !! ptr s with
    | Some arr => match arr !! (off s + i)%nat with
                  | Some b => Ok b w
                  | None => Panic w
                  end
    | None => Panic w
    end
  else Panic w.

(** [data[i] = b]. *)
Definition slice_set (s : slice) (i : nat) (b : Z) : M D unit := fun w =>
  if (i <? len s)%nat then
    match heap w !! ptr s with
    | Some arr =>
        if (off s + i <? length arr)%nat
        then Ok tt (with_heap w (<[ptr s := <[(off s + i)%nat := b]> arr]> (heap w)))
        else Panic w
    | None => Panic w
    end
  else Panic w.

(** The elements of a slice, as [data...] passes them. *)
Definition slice_elems (s : slice) : M D (list Z) := fun w =>
  match heap w !! ptr s with
  | Some arr =>
      if (off s + len s <=? length arr)%nat
      then Ok (take (len s) (drop (off s) arr)) w
      else Panic w
  | None => if (len s =? 0)%nat then Ok [] w else Panic w
  end.

(** [s[lo:hi:max]]. *)
Definition slice3 (s : slice) (lo hi max : nat) : M D slice := fun w =>
  if ((lo <=? hi) && (hi <=? max) && (max <=? cap s))%nat
  then Ok {| ptr := ptr s; off := (off s + lo)%nat;
             len := (hi - lo)%nat; cap := (max - lo)%nat |} w
  else Panic w.

(** [make([]byte, n, n)]: a fresh zeroed array. *)
Definition make_bytes (n : Z) : M D slice := fun w =>
  if n <? 0 then Panic w
  else Ok {| ptr := length (heap w); off := 0; len := Z.to_nat n; cap := Z.to_nat n |}
          (with_heap w (heap w ++ [replicate (Z.to_nat n) 0])).

(** [append(s, elems...)]: in place when the capacity suffices, else into
    a fresh array.  (Go may give the fresh array spare capacity; no code
    here looks at it.) *)
Definition append_bytes (s : slice) (elems : list Z) : M D slice := fun w =>
  if (len s + length elems <=? cap s)%nat then
    match heap w !! ptr s with
    | Some arr =>
        Ok {| ptr := ptr s; off := off s;
              len := (len s + length elems)%nat; cap := cap s |}
           (with_heap w (<[ptr s := list_inserts (off s + len s)%nat elems arr]> (heap w)))
    | None =>
        match elems with
        | [] => Ok s w
        | _ => Panic w
        end
    end
  else
    match heap w !! ptr s with
    | Some arr =>
        let old := take (len s) (drop (off s) arr) in
        Ok {| ptr := length (heap w); off := 0;
              len := (len s + length elems)%nat; cap := (len s + length elems)%nat |}
           (with_heap w (heap w ++ [old ++ elems]))
    | None =>
        Ok {| ptr := length (heap w); off := 0;
              len := length elems; cap := length elems |}
           (with_heap w (heap w ++ [elems]))
    end.

(** ** The engine *)

(** [for i2cMem[csReg]&mask == 0 {}], at most [fuel] polls. *)
Fixpoint wait_for (fuel : nat) (mask : Z) : M D unit :=
  match fuel with
  | O => fun w => Hang w
  | S fuel' =>
      do v <- rd csReg;
      if Z.land v mask =? 0 then wait_for fuel' mask else ret tt
  end.

Definition setI2cDiv (div : Z) : M D unit :=
  wr clkDivReg (Z.land div divMask).

Definition clearI2cTxRxFifo : M D unit :=
  do v <- rd csReg;
  wr csReg (Z.lor v clearTxRx).

Definition getI2cPins (dev : Z) : list Z :=
  if dev =? I2c0 then []
  else if dev =? I2c1 then [2; 3]
  else if dev =? I2c2 then []
  else [].

Fixpoint set_pins (pins : list Z) (m : PinMode) : M D unit :=
  match pins with
  | [] => ret tt
  | pin :: rest => do _ <- Pin_Mode pin m; set_pins rest m
  end.

(** The per-byte wait that [I2cBegin] computes for its log line. *)
Definition byte_wait (cdiv : Z) : Z :=
  let coreFreq := if isBCM2711 then 550 * 1000000 else 250 * 1000000 in
  Z_of_float64
    (float64_of_Z cdiv / float64_of_Z coreFreq * float64_of_Z 1000000 * float64_of_Z 9)%float.

Definition I2cBegin (dev : Z) : M D (option error) :=
  do _ <- wr csReg 0;
  do v <- rd csReg;
  if v =? 0 then ret (Some I2cMapError)
  else
    do _ <- set_pins (getI2cPins dev) I2c;
    do cdiv <- spi_rd clockDividerReg;
    do _ <- (fun w => Ok tt (with_wait w (byte_wait cdiv)));
    do _ <- emit (EvLog (byte_wait cdiv));
    do _ <- setI2cDiv i2cClockDivider2500;
    ret None.

Definition I2cEnd (dev : Z) : M D unit :=
  set_pins (getI2cPins dev) Input.

Definition I2cSpeed (speed : Z) : M D unit :=
  let coreFreq := if isBCM2711 then 550 * 1000000 else 250 * 1000000 in
  if speed =? 0 then (fun w => Panic w)
  else setI2cDiv (wrap32 (Z.quot coreFreq speed)).

Definition I2cChipSelect (chip : Z) : M D unit :=
  let csMask := 3 in
  let cs := wrap32 (wrap8 (Z.land chip csMask)) in
  do v <- rd csReg;
  wr csReg (Z.lor (Z.ldiff v csMask) cs).

Definition I2cChipSelectPolarity (chip polarity : Z) : M D unit :=
  if 2 <? chip then ret tt
  else
    let cspol := wrap32 (Z.shiftl 1 (wrap8 (21 + chip))) in
    if polarity =? 0 then
      do v <- rd csReg; wr csReg (Z.ldiff v cspol)
    else
      do v <- rd csReg; wr csReg (Z.lor v cspol).

Definition I2cMode (polarity phase : Z) : M D unit :=
  do _ <- (if polarity =? 0 then
        do v <- rd csReg; wr csReg (Z.ldiff v cpol)
      else
        do v <- rd csReg; wr csReg (Z.lor v cpol));
  if phase =? 0 then
    do v <- rd csReg; wr csReg (Z.ldiff v cpha)
  else
    do v <- rd csReg; wr csReg (Z.lor v cpha).

(** One turn of [for i := range data]: the byte at index [i]. *)
Definition exchange_byte (fuel : nat) (data : slice) (i : nat) : M D unit :=
  do _ <- wait_for fuel Exchange.txd;
  do b <- slice_get data i;
  do _ <- wr fifoReg b;
  do _ <- wait_for fuel Exchange.rxd;
  do v <- rd fifoReg;
  slice_set data i (wrap8 v).

(** [for i := range data], from index [i], with [n] bytes to go. *)
Fixpoint exchange_loop (fuel : nat) (data : slice) (i n : nat) : M D unit :=
  match n with
  | O => ret tt
  | S n' =>
      do _ <- exchange_byte fuel data i;
      exchange_loop fuel data (S i) n'
  end.

Definition I2cExchange (fuel : nat) (data : slice) : M D unit :=
  do _ <- clearI2cTxRxFifo;
  do v <- rd csReg;
  do _ <- wr csReg (Z.lor v Exchange.ta);
  do _ <- exchange_loop fuel data 0 (len data);
  do _ <- wait_for fuel Exchange.done;
  do v <- rd csReg;
  wr csReg (Z.ldiff v Exchange.ta).

(** What [I2cExchange] does before its loop, on its own. *)
Definition exchange_begin : M D unit :=
  do _ <- clearI2cTxRxFifo;
  do v <- rd csReg;
  wr csReg (Z.lor v Exchange.ta).

Definition I2cTransmit (fuel : nat) (data : slice) : M D unit :=
  do elems <- slice_elems data;
  do empty <- slice3 data 0 0 0;
  do clone <- append_bytes empty elems;
  I2cExchange fuel clone.

Definition I2cReceive (fuel : nat) (n : Z) : M D slice :=
  do data <- make_bytes n;
  do _ <- I2cExchange fuel data;
  ret data.

(** ** Observations on a run *)

(** The events a run from [w] to [w'] added to the log. *)
Definition trace_since (w w' : world D) : list event :=
  drop (length (log w)) (log w').

Inductive access : Set := Wr | Rd.

(** The accesses to the data-FIFO register, in order. *)
Definition fifo_access (e : event) : option access :=
  match e with
  | EvWrite r _ => if r =? fifoReg then Some Wr else None
  | EvRead r _ => if r =? fifoReg then Some Rd else None
  | _ => None
  end.
Definition fifo_accesses (evs : list event) : list access := omap fifo_access evs.

(** The values written to the data-FIFO register, in order. *)
Definition fifo_write (e : event) : option Z :=
  match e with
  | EvWrite r v => if r =? fifoReg then Some v else None
  | _ => None
  end.
Definition fifo_writes (evs : list event) : list Z := omap fifo_write evs.

(** The values read from the data-FIFO register, in order. *)
Definition fifo_read (e : event) : option Z :=
  match e with
  | EvRead r v => if r =? fifoReg then Some v else None
  | _ => None
  end.
Definition fifo_reads (evs : list event) : list Z := omap fifo_read evs.

(** The values written to the control register, in order. *)
Definition cs_write (e : event) : option Z :=
  match e with
  | EvWrite r v => if r =? csReg then Some v else None
  | _ => None
  end.
Definition cs_writes (evs : list event) : list Z := omap cs_write evs.

(** The values written to the clock-divider register, in order. *)
Definition clkdiv_write (e : event) : option Z :=
  match e with
  | EvWrite r v => if r =? clkDivReg then Some v else None
  | _ => None
  end.
Definition clkdiv_writes (evs : list event) : list Z := omap clkdiv_write evs.

(** What a read of the control register answers in world [w]. *)
Definition cs_value (w : world D) : Z := (i2cMem_get (hw w) csReg).1.

(** The control register is a plain word of storage: reading leaves the
    device as it is, and a read after a write answers the word written. *)
Definition cs_is_storage : Prop :=
  (∀ d : D, (i2cMem_get d csReg).2 = d) ∧
  (∀ (d : D) (v : Z), (i2cMem_get (i2cMem_set d csReg v) csReg).1 = v).

(** The hardware raises each of the three bits [I2cExchange] waits for
    within [fuel] polls, whatever the state it is in. *)
Definition responsive (fuel : nat) : Prop :=
  ∀ (w : world D) (mask : Z),
    mask ∈ [Exchange.txd; Exchange.rxd; Exchange.done] →
    ∃ w', wait_for fuel mask w = Ok tt w'.

(** The slice lies within an array of the heap. *)
Definition valid_slice (w : world D) (s : slice) : Prop :=
  ∃ arr, heap w !! ptr s = Some arr ∧ (off s + len s ≤ length arr)%nat.

(** Every event is a read of the control register. *)
Definition cs_reads (evs : list event) : Prop :=
  Forall (fun e => ∃ v, e = EvRead csReg v) evs.

(** Every event is a read or a write of the control register. *)
Definition cs_only (evs : list event) : Prop :=
  Forall (fun e => ∃ v, e = EvRead csReg v ∨ e = EvWrite csReg v) evs.

(** The call returned (it neither hung nor panicked). *)
Definition returned {A : Type} (o : outcome D A) : Prop := ∃ a w, o = Ok a w.

(** From [w] to [w'] no array came or went or changed its length, and only
    the array [p] may hold other bytes. *)
Definition heap_frame (p : nat) (w w' : world D) : Prop :=
  length (heap w') = length (heap w)
  ∧ ∀ q arr, heap w !! q = Some arr →
      ∃ arr', heap w' !! q = Some arr'
              ∧ length arr' = length arr
              ∧ (q ≠ p → arr' = arr).

(** The bytes a slice shows, when it lies within the heap. *)
Definition slice_view (w : world D) (s : slice) : option (list Z) :=
  arr ← heap w !! ptr s;
  if (off s + len s <=? length arr)%nat
  then Some (take (len s) (drop (off s) arr)) else None.

End Engine.

(** ** A simulated register window

    Three words of storage at offsets 0, 1 and 2.  The hardware side is
    reduced to two knobs: [flags], the status bits it holds raised in the
    control/status word whatever was written, and [slave_byte], the byte the
    slave answers in the FIFO.  With [flags = 0] the control word is plain
    storage. *)
Record sim (flags : Z) : Set := {
  cs_word : Z;
  fifo_word : Z;
  clk_word : Z;
  slave_byte : Z
}.
Global Arguments cs_word {flags}.
Global Arguments fifo_word {flags}.
Global Arguments clk_word {flags}.
Global Arguments slave_byte {flags}.

Definition sim_get {flags : Z} (d : sim flags) (r : Z) : Z * sim flags :=
  (if r =? 0 then Z.lor (cs_word d) flags
   else if r =? 1 then slave_byte d
   else if r =? 2 then clk_word d
   else 0, d).

Definition sim_set {flags : Z} (d : sim flags) (r v : Z) : sim flags :=
  if r =? 0 then {| cs_word := v; fifo_word := fifo_word d;
                    clk_word := clk_word d; slave_byte := slave_byte d |}
  else if r =? 1 then {| cs_word := cs_word d; fifo_word := v;
                         clk_word := clk_word d; slave_byte := slave_byte d |}
  else if r =? 2 then {| cs_word := cs_word d; fifo_word := fifo_word d;
                         clk_word := v; slave_byte := slave_byte d |}
  else d.

#[export] Instance sim_window (flags : Z) : Window (sim flags) := {|
  csReg := 0;
  fifoReg := 1;
  clkDivReg := 2;
  isBCM2711 := false;
  i2cMem_get := sim_get;
  i2cMem_set := sim_set;
  spiMem_get := fun d r => (if r =? clockDividerReg then i2cClockDivider150 else 0, d);
  pin_Mode := fun d _ _ => d
|}.

(** A fresh simulated world: all words zero, the slave answering [0xA5],
    and the given arrays on the heap. *)
Definition sim_world (flags : Z) (h : list (list Z)) : world (sim flags) :=
  {| hw := {| cs_word := 0; fifo_word := 0; clk_word := 0; slave_byte := 0xA5 |};
     heap := h; log := []; i2cByteWaitMicroseconds := 0 |}.

(** A one-byte buffer over the first array of the heap. *)
Definition one_byte : slice := {| ptr := 0; off := 0; len := 1; cap := 1 |}.


(** The three bits [I2cExchange] waits for, all raised. *)
Definition spi_ready : Z :=
  Z.lor Exchange.txd (Z.lor Exchange.rxd Exchange.done).

(** The three bits of the Status Register Bit Masks that say the same. *)
Definition bsc_ready : Z :=
  Z.lor statusTXAcceptsData (Z.lor statusRXContainsData statusTransferDone).

End Rpio.

(** ** The battery monitor with rolling history *)

Module PiSugar.

Definition piSugarI2CAddress : Z := 0x57.
Definition powerReg : Z := 0x02.
Definition temperatureReg : Z := 0x04.
Definition voltageReg : Z := 0x22.
Definition batteryChargeReg : Z := 0x2a.
Definition secondsInAMinute : Z := 60.
Definition minutesInAnHour : Z := 60.
Definition hoursInADay : Z := 24.
Definition numberOfDays : Z := 7.

Record PiSugar : Set := {
  voltage : float;
  charge : Z;
  power : bool;
  charging : bool;
  model : Z;
  temperature : Z
}.

(** [table[first:]]; out of range is a run-time panic. *)
Definition slice_from {A : Type} (table : list A) (first : nat) : option (list A) :=
  if (first <=? length table)%nat then Some (drop first table) else None.

Definition appendInt (table : list Z) (value : Z) (maxSize : Z) : option (list Z) :=
  let firstElement := if Z.of_nat (length table) =? maxSize then 1%nat else 0%nat in
  rest ← slice_from table firstElement;
  Some (rest ++ [value]).

Definition appendFloat64 (table : list float) (value : float) (maxSize : Z)
  : option (list float) :=
  let firstElement := if Z.of_nat (length table) =? maxSize then 1%nat else 0%nat in
  rest ← slice_from table firstElement;
  Some (rest ++ [value]).

Definition avgInt (table : list Z) : float :=
  (fold_left (fun avg v => avg + float64_of_Z v) table 0
   / float64_of_Z (Z.of_nat (length table)))%float.

Definition avgFloat64 (table : list float) : float :=
  (fold_left (fun avg v => avg + v) table 0
   / float64_of_Z (Z.of_nat (length table)))%float.

(** The callee of [I2cReadRegister] stores bytes into the caller's buffer:
    it can change what the buffer holds, never how long it is. *)
Definition fill (buf stored : list Z) : list Z :=
  take (length buf) (stored ++ drop (length stored) buf).

(** The package-level variables, the bus behind [piSugar.I2cDevice], and
    two records kept for the proofs: the reason codes [I2cReadRegister]
    returned, and the lines handed to [Debug]. *)
Record state (B : Type) : Type := {
  piSugar : PiSugar;
  lastMinuteCharge : list Z;
  lastHourCharge : list float;
  lastDayCharge : list float;
  lastMinuteVoltage : list float;
  lastHourVoltage : list float;
  lastDayVoltage : list float;
  lastMinuteTemperature : list Z;
  lastHourTemperature : list float;
  lastDayTemperature : list float;
  counter : Z;
  bus : B;
  codes : list (Z * Z);
  debug : list (Z * float * Z * bool)
}.
Global Arguments piSugar {B}.
Global Arguments lastMinuteCharge {B}.
Global Arguments lastHourCharge {B}.
Global Arguments lastDayCharge {B}.
Global Arguments lastMinuteVoltage {B}.
Global Arguments lastHourVoltage {B}.
Global Arguments lastDayVoltage {B}.
Global Arguments lastMinuteTemperature {B}.
Global Arguments lastHourTemperature {B}.
Global Arguments lastDayTemperature {B}.
Global Arguments counter {B}.
Global Arguments bus {B}.
Global Arguments codes {B}.
Global Arguments debug {B}.

Section Monitor.
(** [I2cReadRegister] belongs to the I2C device of the rpio package and is
    not part of these sources: given the bus, a register, the buffer and a
    byte count, it answers a reason code, the bytes it stored, and the bus
    afterwards. *)
Context {B : Type} (I2cReadRegister : B → Z → list Z → Z → Z * list Z * B).

(** One smoothed quantity: the [if code == 0] block of [Refresh] for a
    last-minute window of integers. *)
Definition smooth_int (cnt reading : Z)
    (lastMinute : list Z) (lastHour lastDay : list float)
  : option (Z * list Z * list float * list float) :=
  lastMinute ← appendInt lastMinute reading secondsInAMinute;
  let value := Z_of_float64 (avgInt lastMinute) in
  if Z.rem cnt 60 =? 0 then
    lastHour ← appendFloat64 lastHour (avgInt lastMinute) minutesInAnHour;
    if Z.rem cnt 1440 =? 0 then
      lastDay ← appendFloat64 lastDay (avgFloat64 lastHour) (numberOfDays * hoursInADay);
      Some (value, lastMinute, lastHour, lastDay)
    else Some (value, lastMinute, lastHour, lastDay)
  else Some (value, lastMinute, lastHour, lastDay).

(** The same block for a last-minute window of floats. *)
Definition smooth_float (cnt : Z) (reading : float)
    (lastMinute lastHour lastDay : list float)
  : option (float * list float * list float * list float) :=
  lastMinute ← appendFloat64 lastMinute reading secondsInAMinute;
  let value := avgFloat64 lastMinute in
  if Z.rem cnt 60 =? 0 then
    lastHour ← appendFloat64 lastHour (avgFloat64 lastMinute) minutesInAnHour;
    if Z.rem cnt 1440 =? 0 then
      lastDay ← appendFloat64 lastDay (avgFloat64 lastHour) (numberOfDays * hoursInADay);
      Some (value, lastMinute, lastHour, lastDay)
    else Some (value, lastMinute, lastHour, lastDay)
  else Some (value, lastMinute, lastHour, lastDay).

(** [None] is a run-time panic. *)
Definition Refresh (g : state B) : option (state B) :=
  let buf := [0; 0] in
  let cnt := wrap_int (counter g + 1) in
  (* temperature *)
  let '(code1, stored, b1) := I2cReadRegister (bus g) temperatureReg buf 1 in
  let buf := fill buf stored in
  '(temperature', lmT, lhT, ldT) ←
    (if code1 =? 0 then
       b0 ← buf !! 0%nat;
       smooth_int cnt (b0 - 40)
         (lastMinuteTemperature g) (lastHourTemperature g) (lastDayTemperature g)
     else Some (temperature (piSugar g),
                lastMinuteTemperature g, lastHourTemperature g, lastDayTemperature g));
  (* voltage *)
  let '(code2, stored, b2) := I2cReadRegister b1 voltageReg buf 2 in
  let buf := fill buf stored in
  '(voltage', lmV, lhV, ldV) ←
    (if code2 =? 0 then
       b0 ← buf !! 0%nat;
       b1' ← buf !! 1%nat;
       smooth_float cnt
         (float64_of_Z (Z.lor (wrap16 (Z.shiftl (wrap16 b0) 8)) (wrap16 b1'))
          / float64_of_Z 1000)%float
         (lastMinuteVoltage g) (lastHourVoltage g) (lastDayVoltage g)
     else Some (voltage (piSugar g),
                lastMinuteVoltage g, lastHourVoltage g, lastDayVoltage g));
  (* charge *)
  let '(code3, stored, b3) := I2cReadRegister b2 batteryChargeReg buf 1 in
  let buf := fill buf stored in
  '(charge', lmC, lhC, ldC) ←
    (if code3 =? 0 then
       b0 ← buf !! 0%nat;
       smooth_int cnt b0
         (lastMinuteCharge g) (lastHourCharge g) (lastDayCharge g)
     else Some (charge (piSugar g),
                lastMinuteCharge g, lastHourCharge g, lastDayCharge g));
  (* power *)
  let '(code4, stored, b4) := I2cReadRegister b3 powerReg buf 1 in
  let buf := fill buf stored in
  power' ←
    (if code4 =? 0 then b0 ← buf !! 0%nat; Some (negb (Z.land b0 0x80 =? 0))
     else Some (power (piSugar g)));
  Some {| piSugar := {| voltage := voltage'; charge := charge'; power := power';
                        charging := charging (piSugar g); model := model (piSugar g);
                        temperature := temperature' |};
          lastMinuteCharge := lmC; lastHourCharge := lhC; lastDayCharge := ldC;
          lastMinuteVoltage := lmV; lastHourVoltage := lhV; lastDayVoltage := ldV;
          lastMinuteTemperature := lmT; lastHourTemperature := lhT;
          lastDayTemperature := ldT;
          counter := cnt;
          bus := b4;
          codes := codes g ++ [(temperatureReg, code1); (voltageReg, code2);
                               (batteryChargeReg, code3); (powerReg, code4)];
          debug := debug g ++ [(temperature', voltage', charge', power')] |}.

End Monitor.

(** A bus that answers from a script of reason codes and bytes, whatever
    register is asked for, and fails once the script is used up. *)
Definition scripted (b : list (Z * list Z)) (reg : Z) (buf : list Z) (n : Z)
  : Z * list Z * list (Z * list Z) :=
  match b with
  | [] => (1, [], [])
  | (code, stored) :: rest => (code, stored, rest)
  end.

(** What one call of [Refresh] may do to the three windows of a quantity,
    given the reason code of its read and the counter of the call: keep
    them within their capacities, leave them alone after a failed read,
    and leave the hour and day windows alone off the 60th and 1440th
    calls. *)
Definition window_step {A : Type} (code cnt : Z)
    (lm lm' : list A) (lh lh' ld ld' : list float) : Prop :=
  (Z.of_nat (length lm) ≤ secondsInAMinute → Z.of_nat (length lm') ≤ secondsInAMinute)
  ∧ (Z.of_nat (length lh) ≤ minutesInAnHour → Z.of_nat (length lh') ≤ minutesInAnHour)
  ∧ (Z.of_nat (length ld) ≤ hoursInADay * numberOfDays →
     Z.of_nat (length ld') ≤ hoursInADay * numberOfDays)
  ∧ (code ≠ 0 → lm' = lm ∧ lh' = lh ∧ ld' = ld)
  ∧ (Z.rem cnt 60 ≠ 0 → lh' = lh ∧ ld' = ld)
  ∧ (Z.rem cnt 1440 ≠ 0 → ld' = ld).

(** Every history window is within the capacity it was made with. *)
Definition windows_bounded {B : Type} (g : state B) : Prop :=
  (Z.of_nat (length (lastMinuteCharge g)) ≤ secondsInAMinute
   ∧ Z.of_nat (length (lastHourCharge g)) ≤ minutesInAnHour
   ∧ Z.of_nat (length (lastDayCharge g)) ≤ hoursInADay * numberOfDays)
  ∧ (Z.of_nat (length (lastMinuteVoltage g)) ≤ secondsInAMinute
     ∧ Z.of_nat (length (lastHourVoltage g)) ≤ minutesInAnHour
     ∧ Z.of_nat (length (lastDayVoltage g)) ≤ hoursInADay * numberOfDays)
  ∧ (Z.of_nat (length (lastMinuteTemperature g)) ≤ secondsInAMinute
     ∧ Z.of_nat (length (lastHourTemperature g)) ≤ minutesInAnHour
     ∧ Z.of_nat (length (lastDayTemperature g)) ≤ hoursInADay * numberOfDays).

(** The package-level variables as the program starts, over a given bus. *)
Definition initial {B : Type} (b : B) : state B :=
  {| piSugar := {| voltage := 0; charge := 0; power := false;
                   charging := false; model := 0; temperature := 0 |};
     lastMinuteCharge := []; lastHourCharge := []; lastDayCharge := [];
     lastMinuteVoltage := []; lastHourVoltage := []; lastDayVoltage := [];
     lastMinuteTemperature := []; lastHourTemperature := [];
     lastDayTemperature := [];
     counter := 0; bus := b; codes := []; debug := [] |}.

End PiSugar.

(** ** The battery monitor that stores the raw readings *)

Module PiSugarDirect.

Definition piSugarI2CAddress : Z := 0x57.
Definition powerReg : Z := 0x02.
Definition temperatureReg : Z := 0x04.
Definition voltageReg : Z := 0x22.
Definition batteryChargeReg : Z := 0x2a.
Definition chargingStatusReg : Z := 0x2a.

Record PiSugar : Set := {
  voltage : float;
  charge : Z;
  power : bool;
  charging : bool;
  model : Z;
  temperature : Z
}.

Record state (B : Type) : Type := {
  piSugar : PiSugar;
  bus : B;
  codes : list (Z * Z);
  debug : list (Z * float * Z * bool)
}.
Global Arguments piSugar {B}.
Global Arguments bus {B}.
Global Arguments codes {B}.
Global Arguments debug {B}.

Section Monitor.
Context {B : Type} (I2cReadRegister : B → Z → list Z → Z → Z * list Z * B).

Definition Refresh (g : state B) : option (state B) :=
  let buf := [0; 0] in
  let '(code1, stored, b1) := I2cReadRegister (bus g) temperatureReg buf 1 in
  let buf := PiSugar.fill buf stored in
  temperature' ←
    (if code1 =? 0 then b0 ← buf !! 0%nat; Some (b0 - 40)
     else Some (temperature (piSugar g)));
  let '(code2, stored, b2) := I2cReadRegister b1 voltageReg buf 2 in
  let buf := PiSugar.fill buf stored in
  voltage' ←
    (if code2 =? 0 then
       b0 ← buf !! 0%nat;
       b1' ← buf !! 1%nat;
       Some (float64_of_Z (Z.lor (wrap16 (Z.shiftl (wrap16 b0) 8)) (wrap16 b1'))
             / float64_of_Z 1000)%float
     else Some (voltage (piSugar g)));
  let '(code3, stored, b3) := I2cReadRegister b2 batteryChargeReg buf 1 in
  let buf := PiSugar.fill buf stored in
  charge' ←
    (if code3 =? 0 then b0 ← buf !! 0%nat; Some b0
     else Some (charge (piSugar g)));
  let '(code4, stored, b4) := I2cReadRegister b3 powerReg buf 1 in
  let buf := PiSugar.fill buf stored in
  power' ←
    (if code4 =? 0 then b0 ← buf !! 0%nat; Some (negb (Z.land b0 0x80 =? 0))
     else Some (power (piSugar g)));
  Some {| piSugar := {| voltage := voltage'; charge := charge'; power := power';
                        charging := charging (piSugar g); model := model (piSugar g);
                        temperature := temperature' |};
          bus := b4;
          codes := codes g ++ [(temperatureReg, code1); (voltageReg, code2);
                               (batteryChargeReg, code3); (powerReg, code4)];
          debug := debug g ++ [(temperature', voltage', charge', power')] |}.

End Monitor.

(** The package-level variables as the program starts, over a given bus. *)
Definition initial {B : Type} (b : B) : state B :=
  {| piSugar := {| voltage := 0; charge := 0; power := false;
                   charging := false; model := 0; temperature := 0 |};
     bus := b; codes := []; debug := [] |}.

End PiSugarDirect.

(** ** The battery monitor of pi_sugar.go

    It only opens the bus; its [Refresh] does nothing. *)

Module PiSugarBus.

Record PiSugar : Set := {
  voltage : Z;
  charge : Z;
  power : bool;
  charging : bool;
  model : Z
}.

(** The handle [&piSugar], or the error of [I2cBegin]. *)
Definition NewPiSugar {D : Type} {W : Rpio.Window D}
  : Rpio.M D (option unit * option Rpio.error) :=
  Rpio.bind (Rpio.I2cBegin Rpio.I2c1)
    (fun err => match err with
                | Some e => Rpio.ret (None, Some e)
                | None => Rpio.ret (Some tt, None)
                end).

Definition Refresh (piSugar : PiSugar) : PiSugar := piSugar.

End PiSugarBus.

(** * Proofs *)

Import Rpio.

(** ** Bits *)

Lemma shiftl_1_pow2 (k : Z) : 0 ≤ k → Z.shiftl 1 k = 2 ^ k.
Proof. intros Hk. rewrite Z.shiftl_mul_pow2 by lia. lia. Qed.

(** [div & divMask] keeps bits 1 to 15 of [div]. *)
Lemma land_divMask_bits (div n : Z) :
  Z.testbit (Z.land div divMask) n = Z.testbit div n && (0 <? n) && (n <? 16).
Proof.
  destruct (Z.ltb_spec n 0) as [Hneg | Hnn].
  { rewrite !Z.testbit_neg_r by lia. reflexivity. }
  rewrite Z.land_spec.
  change divMask with (Z.shiftl (Z.ones 15) 1).
  rewrite Z.shiftl_spec by lia.
  destruct (Z.eqb_spec n 0) as [-> | Hn0].
  { rewrite (Z.testbit_neg_r _ (0 - 1)) by lia. now rewrite !andb_false_r. }
  rewrite Z.testbit_ones_nonneg by lia.
  replace (0 <? n) with true by (symmetry; apply Z.ltb_lt; lia).
  replace (n - 1 <? 15) with (n <? 16).
  - now rewrite andb_true_r.
  - destruct (Z.ltb_spec n 16), (Z.ltb_spec (n - 1) 15); lia || reflexivity.
Qed.

Lemma land_divMask_eq (div : Z) :
  Z.land div divMask = 2 * ((div mod 2 ^ 16) / 2).
Proof.
  apply Z.bits_inj'. intros n Hn.
  rewrite land_divMask_bits.
  destruct (Z.eqb_spec n 0) as [-> | Hn0].
  { rewrite Z.testbit_even_0. now rewrite andb_false_r. }
  rewrite Z.double_bits.
  change (div mod 2 ^ 16 / 2) with (div mod 2 ^ 16 / 2 ^ 1).
  rewrite <- Z.shiftr_div_pow2 by lia.
  rewrite Z.shiftr_spec by lia.
  replace (Z.pred n + 1) with n by lia.
  rewrite Z.testbit_mod_pow2 by lia.
  replace (0 <? n) with true by (symmetry; apply Z.ltb_lt; lia).
  rewrite andb_true_r. apply andb_comm.
Qed.

Lemma land_divMask_range (div : Z) :
  0 ≤ Z.land div divMask ≤ 0xFFFF ∧ Z.even (Z.land div divMask) = true.
Proof.
  rewrite land_divMask_eq.
  assert (0 ≤ div mod 2 ^ 16 < 2 ^ 16) as Hm by (apply Z.mod_pos_bound; lia).
  set (x := div mod 2 ^ 16) in *.
  change (2 ^ 16) with 65536 in Hm.
  split.
  - change 0xFFFF with 65535. clearbody x. Z.div_mod_to_equations. lia.
  - rewrite Z.even_mul. reflexivity.
Qed.

Lemma land_divMask_le (div : Z) : 0 ≤ div → Z.land div divMask ≤ div.
Proof.
  intros Hdiv. rewrite land_divMask_eq.
  assert (div mod 2 ^ 16 ≤ div) by (apply Z.mod_le; lia).
  assert (0 ≤ div mod 2 ^ 16) by (apply Z.mod_pos_bound; lia).
  set (x := div mod 2 ^ 16) in *. clearbody x.
  Z.div_mod_to_equations. lia.
Qed.

(** ** The log only grows *)

Section EngineFacts.
Context {D : Type} {W : Window D}.

Lemma trace_since_app (w w' : world D) (evs : list event) :
  log w' = log w ++ evs → trace_since w w' = evs.
Proof. unfold trace_since. intros ->. apply drop_app_length. Qed.

Lemma bind_Ok {A B} (c : M D A) (k : A → M D B) w a w1 :
  c w = Ok a w1 → bind c k w = k a w1.
Proof. unfold bind. now intros ->. Qed.

Lemma bind_inv_Ok {A B} (c : M D A) (k : A → M D B) w b w' :
  bind c k w = Ok b w' → ∃ a w1, c w = Ok a w1 ∧ k a w1 = Ok b w'.
Proof. unfold bind. destruct (c w) as [a w1 | w1 | w1]; [eauto | discriminate..]. Qed.

Lemma rd_eq (r : Z) (w : world D) :
  rd r w = Ok (i2cMem_get (hw w) r).1
              (with_log (with_hw w (i2cMem_get (hw w) r).2)
                        (log w ++ [EvRead r (i2cMem_get (hw w) r).1])).
Proof. unfold rd. now destruct (i2cMem_get (hw w) r). Qed.

(** A read-modify-write of the control register, on storage. *)
Lemma rmw_storage (f : Z → Z) (w : world D) :
  cs_is_storage →
  ∃ w', bind (rd csReg) (fun v => wr csReg (f v)) w = Ok tt w'
        ∧ cs_value w' = f (cs_value w).
Proof.
  intros [Hpure Hsame].
  unfold bind. rewrite rd_eq. unfold wr. eexists. split; [reflexivity |].
  unfold cs_value. cbn. apply Hsame.
Qed.

Lemma set_pins_eq (pins : list Z) (m : PinMode) (w : world D) :
  ∃ w', set_pins pins m w = Ok tt w'
        ∧ log w' = log w ++ map (fun p => EvPinMode p m) pins
        ∧ heap w' = heap w
        ∧ i2cByteWaitMicroseconds w' = i2cByteWaitMicroseconds w.
Proof.
  revert w. induction pins as [| p pins IH]; intros w.
  - exists w. cbn. now rewrite app_nil_r.
  - cbn [set_pins]. unfold bind, Pin_Mode.
    edestruct IH as (w' & -> & Hlog & Hheap & Hwait).
    exists w'. split; [reflexivity |]. rewrite Hlog, Hheap, Hwait. cbn.
    now rewrite <- app_assoc.
Qed.

End EngineFacts.

(** ** Clock divider *)

(** C4, as stated, fails: a requested divider of 65536 is programmed as 0,
    not as 65536, its value rounded down to an even number. *)
Lemma C4_counterexample :
  clkdiv_writes (D := sim 0) (log (world_of (setI2cDiv 65536 (sim_world 0 [])))) = [0]
  ∧ 0 ≠ 2 * (65536 / 2).
Proof. split; [reflexivity | discriminate]. Qed.

(** C4 (amended): for every requested divider (a uint32), [setI2cDiv] writes
    to the clock-divider register exactly one value; it is even, fits in 16
    bits, never exceeds the requested value, and is the low 16 bits of the
    request rounded down to an even number; for requests below 65536 it is
    the request itself rounded down to an even number. *)
Theorem C4_setI2cDiv_masks_to_even_16_bits
    {D : Type} {W : Window D} (div : Z) (w : world D) :
  0 ≤ div < 2 ^ 32 →
  ∃ v w', setI2cDiv div w = Ok tt w'
    ∧ trace_since w w' = [EvWrite clkDivReg v]
    ∧ Z.even v = true
    ∧ 0 ≤ v ≤ 0xFFFF
    ∧ v ≤ div
    ∧ v = 2 * ((div mod 2 ^ 16) / 2)
    ∧ (div < 2 ^ 16 → v = 2 * (div / 2)).
Proof.
  intros [Hlo Hhi].
  exists (Z.land div divMask). eexists. split; [reflexivity |].
  split; [now apply trace_since_app |].
  pose proof (land_divMask_range div) as [Hr He].
  repeat split; try tauto.
  - now apply land_divMask_le.
  - apply land_divMask_eq.
  - intros Hsmall. rewrite land_divMask_eq, Z.mod_small by lia. reflexivity.
Qed.

Lemma C4_witness :
  ∃ v w', setI2cDiv 83333 (sim_world 0 []) = Ok tt w'
    ∧ trace_since (sim_world 0 []) w' = [EvWrite (clkDivReg (D := sim 0)) v]
    ∧ Z.even v = true
    ∧ 0 ≤ v ≤ 0xFFFF
    ∧ v ≤ 83333
    ∧ v = 2 * ((83333 mod 2 ^ 16) / 2)
    ∧ (83333 < 2 ^ 16 → v = 2 * (83333 / 2)).
Proof. apply (C4_setI2cDiv_masks_to_even_16_bits 83333 (sim_world 0 [])). lia. Defined.

(** ** Bus lifecycle *)

(** C2, as stated, fails: on a window whose control word is plain storage
    the read-back after the reset is zero, and [I2cBegin] then fails with the
    mapping error instead of going on. *)
Lemma C2_counterexample :
  ∃ w', I2cBegin I2c1 (sim_world 0 []) = Ok (Some I2cMapError) w'
        ∧ log w' = [EvWrite 0 0; EvRead 0 0].
Proof. eexists. split; reflexivity. Qed.

(** C2 (amended): [I2cBegin] writes zero to the control register and reads
    it back at once; it fails with the mapping error exactly when the
    read-back is zero, touching nothing else; when the read-back is not zero
    it puts the pins of the device in I2C mode, reads the SPI clock divider
    for its log line, programs the divider 2500 and returns success. *)
Theorem C2_I2cBegin_fails_iff_readback_zero
    {D : Type} {W : Window D} (dev : Z) (w : world D) :
  let readback := (i2cMem_get (i2cMem_set (hw w) csReg 0) csReg).1 in
  ∃ (res : option error) (w' : world D),
    I2cBegin dev w = Ok res w'
    ∧ (res = Some I2cMapError ↔ readback = 0)
    ∧ (res = None ↔ readback ≠ 0)
    ∧ (readback = 0 →
       trace_since w w' = [EvWrite csReg 0; EvRead csReg readback])
    ∧ (readback ≠ 0 →
       ∃ cdiv,
         trace_since w w' =
           [EvWrite csReg 0; EvRead csReg readback]
           ++ map (fun p => EvPinMode p I2c) (getI2cPins dev)
           ++ [EvSpiRead clockDividerReg cdiv; EvLog (byte_wait cdiv);
               EvWrite clkDivReg i2cClockDivider2500]).
Proof.
  intros readback. unfold I2cBegin.
  unfold bind at 1. unfold wr at 1.
  unfold bind at 1. rewrite rd_eq. cbn [hw with_hw with_log log].
  fold readback.
  destruct (Z.eqb_spec readback 0) as [Hz | Hnz].
  - eexists _, _. split; [reflexivity |].
    split; [tauto |]. split; [split; [discriminate | tauto] |].
    split; [| tauto]. intros _. apply trace_since_app. cbn.
    now rewrite <- app_assoc.
  - unfold bind at 1.
    match goal with |- context [set_pins ?p ?m ?w0] =>
      destruct (set_pins_eq p m w0) as (w1 & -> & Hlog1 & _ & _) end.
    unfold bind at 1. unfold spi_rd.
    destruct (spiMem_get (hw w1) clockDividerReg) as [cdiv d2] eqn:Hspi.
    eexists _, _. split; [reflexivity |].
    split; [split; [discriminate | tauto] |]. split; [tauto |].
    split; [tauto |]. intros _. exists cdiv.
    apply trace_since_app. cbn. rewrite Hlog1. cbn.
    rewrite <- !app_assoc. reflexivity.
Qed.

Lemma C2_witness :
  ∃ res w',
    I2cBegin I2c1 (sim_world spi_ready []) = Ok res w'
    ∧ (res = None
       ↔ (i2cMem_get (i2cMem_set (hw (sim_world spi_ready []))
                                 (csReg (D := sim spi_ready)) 0)
                     (csReg (D := sim spi_ready))).1 ≠ 0)
    ∧ res = None.
Proof.
  destruct (C2_I2cBegin_fails_iff_readback_zero I2c1 (sim_world spi_ready []))
    as (res & w' & Hrun & _ & Hnone & _).
  exists res, w'. split; [exact Hrun |]. split; [exact Hnone |].
  apply Hnone. discriminate.
Defined.

(** ** Chip select and clock shape *)

Lemma testbit_shiftl_1 (k j : Z) :
  0 ≤ k → Z.testbit (Z.shiftl 1 k) j = (k =? j).
Proof. intros Hk. rewrite shiftl_1_pow2 by lia. now apply Z.pow2_bits_eqb. Qed.

(** C5: on a control register that is plain storage, for chip 0, 1 or 2 the
    call makes bit [21 + chip] equal to "polarity is not zero" and leaves
    every other bit as it was; for a chip above 2 nothing is read or
    written. *)
Theorem C5_I2cChipSelectPolarity_touches_one_bit
    {D : Type} {W : Window D} (chip polarity : Z) (w : world D) :
  cs_is_storage →
  (0 ≤ chip ≤ 2 →
   ∃ w', I2cChipSelectPolarity chip polarity w = Ok tt w'
         ∧ ∀ j, Z.testbit (cs_value w') j =
                if j =? 21 + chip then negb (polarity =? 0)
                else Z.testbit (cs_value w) j)
  ∧ (2 < chip → I2cChipSelectPolarity chip polarity w = Ok tt w).
Proof.
  intros HS. split.
  - intros Hchip. unfold I2cChipSelectPolarity.
    replace (2 <? chip) with false by (symmetry; apply Z.ltb_ge; lia).
    assert (wrap32 (Z.shiftl 1 (wrap8 (21 + chip))) = Z.shiftl 1 (21 + chip)) as ->.
    { assert (chip = 0 ∨ chip = 1 ∨ chip = 2) as [-> | [-> | ->]] by lia;
        reflexivity. }
    destruct (Z.eqb_spec polarity 0) as [Hp | Hp].
    + destruct (rmw_storage (fun v => Z.ldiff v (Z.shiftl 1 (21 + chip))) w HS)
        as (w' & Hrun & Hval).
      exists w'. split; [exact Hrun |]. intros j.
      rewrite Hval, Z.ldiff_spec, testbit_shiftl_1 by lia.
      rewrite (Z.eqb_sym j). destruct (21 + chip =? j); cbn.
      * now rewrite andb_false_r.
      * now rewrite andb_true_r.
    + destruct (rmw_storage (fun v => Z.lor v (Z.shiftl 1 (21 + chip))) w HS)
        as (w' & Hrun & Hval).
      exists w'. split; [exact Hrun |]. intros j.
      rewrite Hval, Z.lor_spec, testbit_shiftl_1 by lia.
      rewrite (Z.eqb_sym j). destruct (21 + chip =? j); cbn.
      * now rewrite orb_true_r.
      * now rewrite orb_false_r.
  - intros Hchip. unfold I2cChipSelectPolarity.
    replace (2 <? chip) with true by (symmetry; apply Z.ltb_lt; lia).
    reflexivity.
Qed.

Lemma sim0_cs_is_storage : cs_is_storage (D := sim 0).
Proof.
  split.
  - reflexivity.
  - intros d v. cbn. apply Z.lor_0_r.
Qed.

Lemma C5_witness :
  (∃ w', I2cChipSelectPolarity 1 1 (sim_world 0 []) = Ok tt w'
         ∧ ∀ j, Z.testbit (cs_value w') j =
                if j =? 21 + 1 then negb (1 =? 0)
                else Z.testbit (cs_value (sim_world 0 [])) j)
  ∧ I2cChipSelectPolarity 3 1 (sim_world 0 []) = Ok tt (sim_world 0 []).
Proof.
  split.
  - apply (C5_I2cChipSelectPolarity_touches_one_bit 1 1 (sim_world 0 []));
      [exact sim0_cs_is_storage | lia].
  - apply (C5_I2cChipSelectPolarity_touches_one_bit 3 1 (sim_world 0 []));
      [exact sim0_cs_is_storage | lia].
Defined.

(** C8: on a control register that is plain storage, [I2cMode 0 0] leaves
    bits 2 and 3 clear and [I2cMode 1 1] leaves them set, and either call
    leaves every other bit as it was. *)
Theorem C8_I2cMode_sets_bits_2_and_3
    {D : Type} {W : Window D} (w : world D) :
  cs_is_storage →
  (∃ w', I2cMode 0 0 w = Ok tt w'
         ∧ Z.testbit (cs_value w') 2 = false
         ∧ Z.testbit (cs_value w') 3 = false
         ∧ ∀ j, j ≠ 2 → j ≠ 3 →
                Z.testbit (cs_value w') j = Z.testbit (cs_value w) j)
  ∧ (∃ w', I2cMode 1 1 w = Ok tt w'
           ∧ Z.testbit (cs_value w') 2 = true
           ∧ Z.testbit (cs_value w') 3 = true
           ∧ ∀ j, j ≠ 2 → j ≠ 3 →
                  Z.testbit (cs_value w') j = Z.testbit (cs_value w) j).
Proof.
  intros HS. split.
  - destruct (rmw_storage (fun v => Z.ldiff v cpol) w HS) as (w1 & Hrun1 & Hval1).
    destruct (rmw_storage (fun v => Z.ldiff v cpha) w1 HS) as (w2 & Hrun2 & Hval2).
    exists w2. split.
    { unfold I2cMode. cbn [Z.eqb]. unfold bind at 1. rewrite Hrun1. exact Hrun2. }
    rewrite Hval2, Hval1. unfold cpol, cpha.
    repeat split.
    + rewrite !Z.ldiff_spec, !testbit_shiftl_1 by lia. cbn. apply andb_false_r.
    + rewrite !Z.ldiff_spec, !testbit_shiftl_1 by lia. cbn.
      now rewrite andb_false_r.
    + intros j H2 H3. rewrite !Z.ldiff_spec, !testbit_shiftl_1 by lia.
      replace (2 =? j) with false by (symmetry; apply Z.eqb_neq; lia).
      replace (3 =? j) with false by (symmetry; apply Z.eqb_neq; lia).
      cbn. now rewrite !andb_true_r.
  - destruct (rmw_storage (fun v => Z.lor v cpol) w HS) as (w1 & Hrun1 & Hval1).
    destruct (rmw_storage (fun v => Z.lor v cpha) w1 HS) as (w2 & Hrun2 & Hval2).
    exists w2. split.
    { unfold I2cMode. cbn [Z.eqb]. unfold bind at 1. rewrite Hrun1. exact Hrun2. }
    rewrite Hval2, Hval1. unfold cpol, cpha.
    repeat split.
    + rewrite !Z.lor_spec, !testbit_shiftl_1 by lia. cbn. apply orb_true_r.
    + rewrite !Z.lor_spec, !testbit_shiftl_1 by lia. cbn.
      now rewrite orb_true_r.
    + intros j H2 H3. rewrite !Z.lor_spec, !testbit_shiftl_1 by lia.
      replace (2 =? j) with false by (symmetry; apply Z.eqb_neq; lia).
      replace (3 =? j) with false by (symmetry; apply Z.eqb_neq; lia).
      cbn. now rewrite !orb_false_r.
Qed.

Lemma C8_witness :
  (∃ w', I2cMode 0 0 (sim_world 0 []) = Ok tt w'
         ∧ Z.testbit (cs_value w') 2 = false
         ∧ Z.testbit (cs_value w') 3 = false
         ∧ ∀ j, j ≠ 2 → j ≠ 3 →
                Z.testbit (cs_value w') j = Z.testbit (cs_value (sim_world 0 [])) j)
  ∧ (∃ w', I2cMode 1 1 (sim_world 0 []) = Ok tt w'
           ∧ Z.testbit (cs_value w') 2 = true
           ∧ Z.testbit (cs_value w') 3 = true
           ∧ ∀ j, j ≠ 2 → j ≠ 3 →
                  Z.testbit (cs_value w') j = Z.testbit (cs_value (sim_world 0 [])) j).
Proof.
  apply (C8_I2cMode_sets_bits_2_and_3 (sim_world 0 [])).
  exact sim0_cs_is_storage.
Defined.

(** ** History windows *)

Section Windows.
Import PiSugar.

Lemma slice_from_0 {A : Type} (table : list A) : slice_from table 0 = Some table.
Proof. reflexivity. Qed.

Lemma slice_from_1 {A : Type} (table : list A) :
  (1 ≤ length table)%nat → slice_from table 1 = Some (drop 1 table).
Proof.
  intros Hlen. unfold slice_from.
  now replace (1 <=? length table)%nat with true by (symmetry; apply Nat.leb_le; lia).
Qed.

(** What both append functions do to a table no longer than a positive
    [maxSize]. *)
Lemma bounded_append {A : Type} (table : list A) (value : A) (maxSize : Z) :
  1 ≤ maxSize → Z.of_nat (length table) ≤ maxSize →
  ∃ r,
    (rest ← slice_from table
              (if Z.of_nat (length table) =? maxSize then 1%nat else 0%nat);
     Some (rest ++ [value])) = Some r
    ∧ Z.of_nat (length r) = Z.min (Z.of_nat (length table) + 1) maxSize
    ∧ last r = Some value
    ∧ (Z.of_nat (length table) = maxSize → r = drop 1 table ++ [value])
    ∧ (Z.of_nat (length table) < maxSize → r = table ++ [value]).
Proof.
  intros Hmax Hlen.
  destruct (Z.eqb_spec (Z.of_nat (length table)) maxSize) as [Hfull | Hroom].
  - rewrite slice_from_1 by lia. cbn. eexists. split; [reflexivity |].
    rewrite length_app, length_drop, last_snoc. cbn.
    repeat split; [lia | lia].
  - rewrite slice_from_0. cbn. eexists. split; [reflexivity |].
    rewrite length_app, last_snoc. cbn.
    repeat split; [lia | lia].
Qed.

End Windows.

(** C10, as stated, fails for [maxSize = 0]: the empty table has length at
    most 0, and on it both functions panic (the slice [table[1:]] is out of
    range) instead of returning a sequence. *)
Lemma C10_counterexample :
  PiSugar.appendInt [] 7 0 = None ∧ PiSugar.appendFloat64 [] 7%float 0 = None.
Proof. split; reflexivity. Qed.

(** C10 (amended): for every [maxSize] of at least 1 and every table no
    longer than [maxSize], [appendInt] and [appendFloat64] return a sequence
    of length [min (len table + 1) maxSize] whose last element is the new
    value; a table already at [maxSize] loses its first element, a shorter
    one keeps all of its elements. *)
Theorem C10_append_keeps_window_bounded
    (ints : list Z) (i : Z) (floats : list float) (f : float) (maxSize : Z) :
  1 ≤ maxSize →
  (Z.of_nat (length ints) ≤ maxSize →
   ∃ r, PiSugar.appendInt ints i maxSize = Some r
        ∧ Z.of_nat (length r) = Z.min (Z.of_nat (length ints) + 1) maxSize
        ∧ last r = Some i
        ∧ (Z.of_nat (length ints) = maxSize → r = drop 1 ints ++ [i])
        ∧ (Z.of_nat (length ints) < maxSize → r = ints ++ [i]))
  ∧ (Z.of_nat (length floats) ≤ maxSize →
     ∃ r, PiSugar.appendFloat64 floats f maxSize = Some r
          ∧ Z.of_nat (length r) = Z.min (Z.of_nat (length floats) + 1) maxSize
          ∧ last r = Some f
          ∧ (Z.of_nat (length floats) = maxSize → r = drop 1 floats ++ [f])
          ∧ (Z.of_nat (length floats) < maxSize → r = floats ++ [f])).
Proof.
  intros Hmax. split; intros Hlen.
  - exact (bounded_append ints i maxSize Hmax Hlen).
  - exact (bounded_append floats f maxSize Hmax Hlen).
Qed.

Lemma C10_witness :
  (∃ r, PiSugar.appendInt [1; 2; 3] 4 3 = Some r
        ∧ Z.of_nat (length r) = Z.min (Z.of_nat (length [1; 2; 3]) + 1) 3
        ∧ last r = Some 4
        ∧ (Z.of_nat (length [1; 2; 3]) = 3 → r = drop 1 [1; 2; 3] ++ [4])
        ∧ (Z.of_nat (length [1; 2; 3]) < 3 → r = [1; 2; 3] ++ [4]))
  ∧ (∃ r, PiSugar.appendFloat64 [1%float] 2%float 3 = Some r
          ∧ Z.of_nat (length r) = Z.min (Z.of_nat (length [1%float]) + 1) 3
          ∧ last r = Some 2%float
          ∧ (Z.of_nat (length [1%float]) = 3 → r = drop 1 [1%float] ++ [2%float])
          ∧ (Z.of_nat (length [1%float]) < 3 → r = [1%float] ++ [2%float])).
Proof.
  split.
  - apply (C10_append_keeps_window_bounded [1; 2; 3] 4 [1%float] 2%float 3);
      cbn; lia.
  - apply (C10_append_keeps_window_bounded [1; 2; 3] 4 [1%float] 2%float 3);
      cbn; lia.
Defined.

(** ** Refresh *)

Section RefreshFacts.
Import PiSugar.

Lemma fill_length (buf stored : list Z) : length (fill buf stored) = length buf.
Proof.
  unfold fill. rewrite length_take, length_app, length_drop. lia.
Qed.

Lemma appendInt_total (table : list Z) (value maxSize : Z) :
  1 ≤ maxSize → ∃ r, appendInt table value maxSize = Some r.
Proof.
  intros Hmax. unfold appendInt.
  destruct (Z.eqb_spec (Z.of_nat (length table)) maxSize) as [Hfull | Hroom].
  - rewrite slice_from_1 by lia. cbn. eauto.
  - rewrite slice_from_0. cbn. eauto.
Qed.

Lemma appendFloat64_total (table : list float) (value : float) (maxSize : Z) :
  1 ≤ maxSize → ∃ r, appendFloat64 table value maxSize = Some r.
Proof.
  intros Hmax. unfold appendFloat64.
  destruct (Z.eqb_spec (Z.of_nat (length table)) maxSize) as [Hfull | Hroom].
  - rewrite slice_from_1 by lia. cbn. eauto.
  - rewrite slice_from_0. cbn. eauto.
Qed.

Lemma smooth_int_total cnt reading lm lh ld :
  ∃ r, smooth_int cnt reading lm lh ld = Some r.
Proof.
  unfold smooth_int.
  destruct (appendInt_total lm reading secondsInAMinute) as [lm' ->]; [done |].
  cbn [mbind option_bind]. destruct (Z.rem cnt 60 =? 0); [| eauto].
  destruct (appendFloat64_total lh (avgInt lm') minutesInAnHour) as [lh' ->]; [done |].
  cbn [mbind option_bind]. destruct (Z.rem cnt 1440 =? 0); [| eauto].
  destruct (appendFloat64_total ld (avgFloat64 lh') (numberOfDays * hoursInADay))
    as [ld' ->]; [done |].
  cbn [mbind option_bind]. eauto.
Qed.

Lemma smooth_float_total cnt reading lm lh ld :
  ∃ r, smooth_float cnt reading lm lh ld = Some r.
Proof.
  unfold smooth_float.
  destruct (appendFloat64_total lm reading secondsInAMinute) as [lm' ->]; [done |].
  cbn [mbind option_bind]. destruct (Z.rem cnt 60 =? 0); [| eauto].
  destruct (appendFloat64_total lh (avgFloat64 lm') minutesInAnHour) as [lh' ->]; [done |].
  cbn [mbind option_bind]. destruct (Z.rem cnt 1440 =? 0); [| eauto].
  destruct (appendFloat64_total ld (avgFloat64 lh') (numberOfDays * hoursInADay))
    as [ld' ->]; [done |].
  cbn [mbind option_bind]. eauto.
Qed.

(** A guarded block of [Refresh]: it always yields a value, and the old one
    when the reason code is not zero. *)
Lemma guarded_block {A : Type} (code : Z) (fresh : option A) (old : A) :
  is_Some fresh →
  ∃ r, (if code =? 0 then fresh else Some old) = Some r ∧ (code ≠ 0 → r = old).
Proof.
  intros [r Hr]. destruct (Z.eqb_spec code 0) as [Hc | Hc].
  - exists r. split; [exact Hr | contradiction].
  - exists old. split; [reflexivity | reflexivity].
Qed.

Lemma buf_two (buf : list Z) :
  length buf = 2%nat → ∃ b0 b1, buf !! 0%nat = Some b0 ∧ buf !! 1%nat = Some b1.
Proof.
  destruct buf as [| b0 [| b1 [| ? ?]]]; try discriminate. intros _. eauto.
Qed.

End RefreshFacts.

Ltac guard_on c :=
  match goal with
  | |- context [if c =? 0 then ?fresh else Some ?old] =>
      pose proof (guarded_block c fresh old) as Hguard
  end.

(** C9: [Refresh] (both the one that keeps a history and the one that
    stores the raw readings) always returns, asks for the temperature, the
    voltage, the charge and the power register in that order, and every
    field whose read answered a reason code other than 0 holds after the
    call the value it held before. *)
Theorem C9_Refresh_keeps_field_on_failed_read
    {B : Type} (I2cReadRegister : B → Z → list Z → Z → Z * list Z * B)
    (g : PiSugar.state B) (g0 : PiSugarDirect.state B) :
  (∃ g' c1 c2 c3 c4,
     PiSugar.Refresh I2cReadRegister g = Some g'
     ∧ PiSugar.codes g' =
         PiSugar.codes g ++ [(PiSugar.temperatureReg, c1); (PiSugar.voltageReg, c2);
                             (PiSugar.batteryChargeReg, c3); (PiSugar.powerReg, c4)]
     ∧ (c1 ≠ 0 → PiSugar.temperature (PiSugar.piSugar g')
                 = PiSugar.temperature (PiSugar.piSugar g))
     ∧ (c2 ≠ 0 → PiSugar.voltage (PiSugar.piSugar g')
                 = PiSugar.voltage (PiSugar.piSugar g))
     ∧ (c3 ≠ 0 → PiSugar.charge (PiSugar.piSugar g')
                 = PiSugar.charge (PiSugar.piSugar g))
     ∧ (c4 ≠ 0 → PiSugar.power (PiSugar.piSugar g')
                 = PiSugar.power (PiSugar.piSugar g)))
  ∧ (∃ g' c1 c2 c3 c4,
       PiSugarDirect.Refresh I2cReadRegister g0 = Some g'
       ∧ PiSugarDirect.codes g' =
           PiSugarDirect.codes g0
           ++ [(PiSugarDirect.temperatureReg, c1); (PiSugarDirect.voltageReg, c2);
               (PiSugarDirect.batteryChargeReg, c3); (PiSugarDirect.powerReg, c4)]
       ∧ (c1 ≠ 0 → PiSugarDirect.temperature (PiSugarDirect.piSugar g')
                   = PiSugarDirect.temperature (PiSugarDirect.piSugar g0))
       ∧ (c2 ≠ 0 → PiSugarDirect.voltage (PiSugarDirect.piSugar g')
                   = PiSugarDirect.voltage (PiSugarDirect.piSugar g0))
       ∧ (c3 ≠ 0 → PiSugarDirect.charge (PiSugarDirect.piSugar g')
                   = PiSugarDirect.charge (PiSugarDirect.piSugar g0))
       ∧ (c4 ≠ 0 → PiSugarDirect.power (PiSugarDirect.piSugar g')
                   = PiSugarDirect.power (PiSugarDirect.piSugar g0))).
Proof.
  split.
  - unfold PiSugar.Refresh.
    destruct (I2cReadRegister (PiSugar.bus g) PiSugar.temperatureReg [0; 0] 1)
      as [[c1 s1] b1].
    set (buf1 := PiSugar.fill [0; 0] s1).
    destruct (buf_two buf1 (fill_length _ _)) as (x0 & x1 & Hx0 & Hx1).
    rewrite Hx0. cbn [mbind option_bind].
    destruct (smooth_int_total (wrap_int (PiSugar.counter g + 1)) (x0 - 40)
                (PiSugar.lastMinuteTemperature g) (PiSugar.lastHourTemperature g)
                (PiSugar.lastDayTemperature g)) as [rT HrT].
    guard_on c1. destruct Hguard as ([[[t' lmT] lhT] ldT] & -> & HT);
      [rewrite HrT; eauto |].
    cbn [mbind option_bind].
    destruct (I2cReadRegister b1 PiSugar.voltageReg buf1 2) as [[c2 s2] b2].
    set (buf2 := PiSugar.fill buf1 s2).
    destruct (buf_two buf2) as (y0 & y1 & Hy0 & Hy1).
    { unfold buf2. rewrite fill_length. apply fill_length. }
    rewrite Hy0, Hy1. cbn [mbind option_bind].
    match goal with |- context [PiSugar.smooth_float ?c ?r ?a ?b ?d] =>
      destruct (smooth_float_total c r a b d) as [rV HrV] end.
    guard_on c2. destruct Hguard as ([[[v' lmV] lhV] ldV] & -> & HV);
      [rewrite HrV; eauto |].
    cbn [mbind option_bind].
    destruct (I2cReadRegister b2 PiSugar.batteryChargeReg buf2 1) as [[c3 s3] b3].
    set (buf3 := PiSugar.fill buf2 s3).
    destruct (buf_two buf3) as (z0 & z1 & Hz0 & Hz1).
    { unfold buf3, buf2. rewrite !fill_length. apply fill_length. }
    rewrite Hz0. cbn [mbind option_bind].
    destruct (smooth_int_total (wrap_int (PiSugar.counter g + 1)) z0
                (PiSugar.lastMinuteCharge g) (PiSugar.lastHourCharge g)
                (PiSugar.lastDayCharge g)) as [rC HrC].
    guard_on c3. destruct Hguard as ([[[ch' lmC] lhC] ldC] & -> & HC);
      [rewrite HrC; eauto |].
    cbn [mbind option_bind].
    destruct (I2cReadRegister b3 PiSugar.powerReg buf3 1) as [[c4 s4] b4].
    set (buf4 := PiSugar.fill buf3 s4).
    destruct (buf_two buf4) as (u0 & u1 & Hu0 & Hu1).
    { unfold buf4, buf3, buf2. rewrite !fill_length. apply fill_length. }
    rewrite Hu0. cbn [mbind option_bind].
    guard_on c4. destruct Hguard as (p' & -> & HP); [eauto |].
    cbn [mbind option_bind].
    eexists _, c1, c2, c3, c4. split; [reflexivity |].
    cbn. split; [reflexivity |].
    repeat split; intros Hc.
    + now injection (HT Hc).
    + now injection (HV Hc).
    + now injection (HC Hc).
    + exact (HP Hc).
  - unfold PiSugarDirect.Refresh.
    destruct (I2cReadRegister (PiSugarDirect.bus g0) PiSugarDirect.temperatureReg [0; 0] 1)
      as [[c1 s1] b1].
    set (buf1 := PiSugar.fill [0; 0] s1).
    destruct (buf_two buf1 (fill_length _ _)) as (x0 & x1 & Hx0 & Hx1).
    rewrite Hx0. cbn [mbind option_bind].
    guard_on c1. destruct Hguard as (t' & -> & HT); [eauto |].
    cbn [mbind option_bind].
    destruct (I2cReadRegister b1 PiSugarDirect.voltageReg buf1 2) as [[c2 s2] b2].
    set (buf2 := PiSugar.fill buf1 s2).
    destruct (buf_two buf2) as (y0 & y1 & Hy0 & Hy1).
    { unfold buf2. rewrite fill_length. apply fill_length. }
    rewrite Hy0, Hy1. cbn [mbind option_bind].
    guard_on c2. destruct Hguard as (v' & -> & HV); [eauto |].
    cbn [mbind option_bind].
    destruct (I2cReadRegister b2 PiSugarDirect.batteryChargeReg buf2 1) as [[c3 s3] b3].
    set (buf3 := PiSugar.fill buf2 s3).
    destruct (buf_two buf3) as (z0 & z1 & Hz0 & Hz1).
    { unfold buf3, buf2. rewrite !fill_length. apply fill_length. }
    rewrite Hz0. cbn [mbind option_bind].
    guard_on c3. destruct Hguard as (ch' & -> & HC); [eauto |].
    cbn [mbind option_bind].
    destruct (I2cReadRegister b3 PiSugarDirect.powerReg buf3 1) as [[c4 s4] b4].
    set (buf4 := PiSugar.fill buf3 s4).
    destruct (buf_two buf4) as (u0 & u1 & Hu0 & Hu1).
    { unfold buf4, buf3, buf2. rewrite !fill_length. apply fill_length. }
    rewrite Hu0. cbn [mbind option_bind].
    guard_on c4. destruct Hguard as (p' & -> & HP); [eauto |].
    cbn [mbind option_bind].
    eexists _, c1, c2, c3, c4. split; [reflexivity |].
    cbn. split; [reflexivity |].
    repeat split; intros Hc; auto.
Qed.

Lemma C9_witness :
  ∃ g' c1 c2 c3 c4,
    PiSugar.Refresh PiSugar.scripted
      (PiSugar.initial [(0, [70]); (1, []); (0, [88]); (1, [0x80])]) = Some g'
    ∧ PiSugar.codes g' =
        [(PiSugar.temperatureReg, c1); (PiSugar.voltageReg, c2);
         (PiSugar.batteryChargeReg, c3); (PiSugar.powerReg, c4)]
    ∧ (c1 ≠ 0 → PiSugar.temperature (PiSugar.piSugar g') = 0)
    ∧ (c2 ≠ 0 → PiSugar.voltage (PiSugar.piSugar g') = 0%float)
    ∧ (c3 ≠ 0 → PiSugar.charge (PiSugar.piSugar g') = 0)
    ∧ (c4 ≠ 0 → PiSugar.power (PiSugar.piSugar g') = false).
Proof.
  exact (proj1 (C9_Refresh_keeps_field_on_failed_read PiSugar.scripted
                  (PiSugar.initial [(0, [70]); (1, []); (0, [88]); (1, [0x80])])
                  (PiSugarDirect.initial [(0, [70]); (1, []); (0, [88]); (1, [0x80])]))).
Defined.

(** The same script, run: the temperature and the charge are taken, the
    voltage and the power are kept. *)
Example Refresh_scripted :
  (g' ← PiSugar.Refresh PiSugar.scripted
          (PiSugar.initial [(0, [70]); (1, []); (0, [88]); (1, [0x80])]);
   Some (PiSugar.piSugar g'))
  = Some {| PiSugar.voltage := 0; PiSugar.charge := 88; PiSugar.power := false;
            PiSugar.charging := false; PiSugar.model := 0;
            PiSugar.temperature := 30 |}.
Proof. vm_compute. reflexivity. Qed.

(** ** Byte exchange *)

Section ExchangeFacts.
Context {D : Type} {W : Window D}.

Lemma heap_frame_refl (p : nat) (w w' : world D) :
  heap w' = heap w → heap_frame p w w'.
Proof. intros Hh. unfold heap_frame. rewrite Hh. split; [done |]. eauto. Qed.

Lemma heap_frame_trans (p : nat) (w1 w2 w3 : world D) :
  heap_frame p w1 w2 → heap_frame p w2 w3 → heap_frame p w1 w3.
Proof.
  intros [Hl12 H12] [Hl23 H23]. split; [congruence |].
  intros q arr Hq.
  destruct (H12 q arr Hq) as (arr2 & Hq2 & Hlen2 & Hsame2).
  destruct (H23 q arr2 Hq2) as (arr3 & Hq3 & Hlen3 & Hsame3).
  exists arr3. split; [done |]. split; [congruence |].
  intros Hne. rewrite Hsame3, Hsame2; done.
Qed.

Lemma heap_frame_insert (w : world D) (p j : nat) (b : Z) (arr : list Z) :
  heap w !! p = Some arr →
  heap_frame p w (with_heap w (<[p := <[j := b]> arr]> (heap w))).
Proof.
  intros Hp. split; cbn.
  - apply length_insert.
  - intros q arr0 Hq. destruct (decide (q = p)) as [-> | Hne].
    + rewrite list_lookup_insert_eq by (eapply lookup_lt_Some; eauto).
      eexists. split; [done |]. rewrite length_insert.
      split; [congruence | done].
    + rewrite list_lookup_insert_ne by done. eauto.
Qed.

Lemma cs_reads_nil : cs_reads [].
Proof. constructor. Qed.

Lemma cs_reads_cons (v : Z) (evs : list event) :
  cs_reads evs → cs_reads (EvRead csReg v :: evs).
Proof. intros H. constructor; eauto. Qed.

Lemma cs_reads_no_fifo_write (evs : list event) :
  cs_reads evs → fifo_writes evs = [].
Proof.
  unfold fifo_writes. induction 1 as [| e evs [v ->] _ IH]; [done |].
  cbn. exact IH.
Qed.

Lemma cs_reads_no_fifo_access (evs : list event) :
  csReg ≠ fifoReg → cs_reads evs → fifo_accesses evs = [].
Proof.
  intros Hne. unfold fifo_accesses. induction 1 as [| e evs [v ->] _ IH]; [done |].
  cbn. destruct (Z.eqb_spec csReg fifoReg); [done | exact IH].
Qed.

Lemma fifo_writes_app (a b : list event) :
  fifo_writes (a ++ b) = fifo_writes a ++ fifo_writes b.
Proof. apply omap_app. Qed.

Lemma fifo_accesses_app (a b : list event) :
  fifo_accesses (a ++ b) = fifo_accesses a ++ fifo_accesses b.
Proof. apply omap_app. Qed.

Lemma fifo_write_fifo (v : Z) : fifo_write (EvWrite fifoReg v) = Some v.
Proof. cbn. now rewrite Z.eqb_refl. Qed.

Lemma fifo_write_cs (v : Z) : csReg ≠ fifoReg → fifo_write (EvWrite csReg v) = None.
Proof. intros Hne. cbn. now destruct (Z.eqb_spec csReg fifoReg). Qed.



(** A busy-wait, however it ends, only reads the control register. *)
Lemma wait_for_world (fuel : nat) (mask : Z) (w : world D) :
  heap (world_of (wait_for fuel mask w)) = heap w
  ∧ ∃ evs, log (world_of (wait_for fuel mask w)) = log w ++ evs ∧ cs_reads evs.
Proof.
  revert w. induction fuel as [| fuel IH]; intros w.
  - cbn. split; [done |]. exists []. split; [now rewrite app_nil_r | apply cs_reads_nil].
  - cbn [wait_for]. unfold bind. rewrite rd_eq.
    set (v := (i2cMem_get (hw w) csReg).1).
    set (w1 := with_log _ _).
    destruct (Z.land v mask =? 0).
    + destruct (IH w1) as (Hh & evs & Hl & Hq).
      split; [exact Hh |].
      exists (EvRead csReg v :: evs). split.
      * rewrite Hl. unfold w1. cbn. now rewrite <- app_assoc.
      * now apply cs_reads_cons.
    + cbn. split; [done |]. exists [EvRead csReg v].
      split; [done | apply cs_reads_cons, cs_reads_nil].
Qed.

Lemma wait_for_Ok (fuel : nat) (mask : Z) (w w' : world D) (u : unit) :
  wait_for fuel mask w = Ok u w' →
  heap w' = heap w ∧ ∃ evs, log w' = log w ++ evs ∧ cs_reads evs.
Proof. intros H. pose proof (wait_for_world fuel mask w) as Hw. now rewrite H in Hw. Qed.

Lemma Hang_not_returned {A} (w : world D) : ¬ returned (Hang (A := A) w).
Proof. intros (? & ? & ?). discriminate. Qed.

Lemma Panic_not_returned {A} (w : world D) : ¬ returned (Panic (A := A) w).
Proof. intros (? & ? & ?). discriminate. Qed.

(** One turn of the loop ends in one of three ways: before the byte is
    written, after it is written, or with the answer stored in its place. *)
Lemma exchange_byte_cases (fuel : nat) (data : slice) (i : nat) (w : world D)
    (o : outcome D unit) :
  exchange_byte fuel data i w = o →
  (∃ evs, cs_reads evs
          ∧ heap (world_of o) = heap w
          ∧ log (world_of o) = log w ++ evs
          ∧ ¬ returned o)
  ∨ (∃ arr b evs1 evs2,
        heap w !! ptr data = Some arr
        ∧ arr !! (off data + i)%nat = Some b
        ∧ cs_reads evs1 ∧ cs_reads evs2
        ∧ heap (world_of o) = heap w
        ∧ log (world_of o) = log w ++ evs1 ++ [EvWrite fifoReg b] ++ evs2
        ∧ ¬ returned o)
  ∨ (∃ arr b evs1 evs2 v,
        heap w !! ptr data = Some arr
        ∧ arr !! (off data + i)%nat = Some b
        ∧ cs_reads evs1 ∧ cs_reads evs2
        ∧ heap (world_of o) = <[ptr data := <[(off data + i)%nat := wrap8 v]> arr]> (heap w)
        ∧ log (world_of o)
          = log w ++ evs1 ++ [EvWrite fifoReg b] ++ evs2 ++ [EvRead fifoReg v]
        ∧ o = Ok tt (world_of o)).
Proof.
  intros Ho. unfold exchange_byte in Ho. unfold bind at 1 in Ho.
  pose proof (wait_for_world fuel Exchange.txd w) as (Hh1 & evs1 & Hl1 & Hq1).
  destruct (wait_for fuel Exchange.txd w) as [[] w1 | w1 | w1]; cbn [world_of] in *.
  2, 3: subst o; left; exists evs1; cbn [world_of];
    eauto using Hang_not_returned, Panic_not_returned.
  unfold bind at 1 in Ho. unfold slice_get in Ho. rewrite Hh1 in Ho.
  destruct (Nat.ltb_spec i (len data)) as [Hi | Hi].
  2: { subst o; left; exists evs1; cbn [world_of]; eauto using Panic_not_returned. }
  destruct (heap w !! ptr data) as [arr |] eqn:Harr.
  2: { subst o; left; exists evs1; cbn [world_of]; eauto using Panic_not_returned. }
  destruct (arr !! (off data + i)%nat) as [b |] eqn:Hb.
  2: { subst o; left; exists evs1; cbn [world_of]; eauto using Panic_not_returned. }
  unfold bind at 1 in Ho. unfold wr at 1 in Ho.
  set (w2 := with_log _ _) in Ho.
  assert (heap w2 = heap w) as Hh2' by (unfold w2; cbn; done).
  assert (log w2 = log w ++ evs1 ++ [EvWrite fifoReg b]) as Hl2'
    by (unfold w2; cbn; rewrite Hl1, <- app_assoc; done).
  clearbody w2.
  unfold bind at 1 in Ho.
  pose proof (wait_for_world fuel Exchange.rxd w2) as (Hh2 & evs2 & Hl2 & Hq2).
  destruct (wait_for fuel Exchange.rxd w2) as [[] w3 | w3 | w3]; cbn [world_of] in *.
  2, 3: subst o; right; left; exists arr, b, evs1, evs2; cbn [world_of];
    rewrite Hh2, Hl2, Hh2', Hl2', <- !app_assoc;
    eauto 10 using Hang_not_returned, Panic_not_returned.
  unfold bind at 1 in Ho. rewrite rd_eq in Ho.
  set (v := (i2cMem_get (hw w3) fifoReg).1) in *.
  unfold slice_set in Ho. cbn [heap with_log with_hw] in Ho.
  rewrite Hh2, Hh2', Harr in Ho.
  assert (off data + i < length arr)%nat as Hlt by (eapply lookup_lt_Some; eauto).
  destruct (Nat.ltb_spec i (len data)) as [_ | ?]; [| lia].
  destruct (Nat.ltb_spec (off data + i) (length arr)) as [_ | ?]; [| lia].
  subst o. right; right. exists arr, b, evs1, evs2, v. cbn.
  rewrite Hl2, Hl2', <- !app_assoc. repeat split; done.
Qed.

Lemma cs_reads_cs_only (evs : list event) : cs_reads evs → cs_only evs.
Proof. intros H. eapply Forall_impl; [exact H |]. intros e [v ->]. eauto. Qed.

Lemma cs_only_app (a b : list event) : cs_only a → cs_only b → cs_only (a ++ b).
Proof. apply Forall_app_2. Qed.

Lemma cs_only_no_fifo_write (evs : list event) :
  csReg ≠ fifoReg → cs_only evs → fifo_writes evs = [].
Proof.
  intros Hne. unfold fifo_writes.
  induction 1 as [| e evs [v [-> | ->]] _ IH]; [done | exact IH |].
  cbn [omap list_omap]. now rewrite fifo_write_cs.
Qed.



(** However the loop ends, it leaves every other array alone, and the
    bytes it wrote to the FIFO are bytes the buffer held from index [i]
    on. *)
Lemma exchange_loop_world (P : Z → Prop) (fuel : nat) (data : slice)
    (n i : nat) (w : world D) :
  heap_frame (ptr data) w (world_of (exchange_loop fuel data i n w))
  ∧ ∃ evs, log (world_of (exchange_loop fuel data i n w)) = log w ++ evs
           ∧ (∀ arr, heap w !! ptr data = Some arr →
                     Forall P (drop (off data + i) arr) →
                     Forall P (fifo_writes evs)).
Proof.
  revert i w. induction n as [| n IH]; intros i w.
  - cbn. split; [now apply heap_frame_refl |].
    exists []. split; [now rewrite app_nil_r | constructor].
  - cbn [exchange_loop]. unfold bind.
    destruct (exchange_byte_cases fuel data i w _ eq_refl)
      as [(evs & Hq & Hheap & Hlog & Hnot)
         | [(arr & b & evs1 & evs2 & Harr & Hb & Hq1 & Hq2 & Hheap & Hlog & Hnot)
         | (arr & b & evs1 & evs2 & v & Harr & Hb & Hq1 & Hq2 & Hheap & Hlog & Hret)]].
    + destruct (exchange_byte fuel data i w) as [[] w1 | w1 | w1];
        [exfalso; apply Hnot; red; eauto | ..]; cbn [world_of] in *.
      all: split; [now apply heap_frame_refl |].
      all: exists evs; split; [done |]; intros _ _ _.
      all: rewrite cs_reads_no_fifo_write by done; constructor.
    + destruct (exchange_byte fuel data i w) as [[] w1 | w1 | w1];
        [exfalso; apply Hnot; red; eauto | ..]; cbn [world_of] in *.
      all: split; [now apply heap_frame_refl |].
      all: eexists; split; [exact Hlog |]; intros arr' Harr' HP.
      all: rewrite !fifo_writes_app, (cs_reads_no_fifo_write evs1),
             (cs_reads_no_fifo_write evs2) by done.
      all: cbn [fifo_writes omap list_omap]; rewrite fifo_write_fifo; cbn.
      all: assert (arr' = arr) as -> by congruence.
      all: rewrite (drop_S _ _ _ Hb) in HP; inversion HP; subst; eauto.
    + rewrite Hret. set (w1 := world_of _) in *. clearbody w1.
      destruct (IH (S i) w1) as (Hframe & evs & Hlog' & Hwr).
      assert (off data + i < length arr)%nat as Hlt by (eapply lookup_lt_Some; eauto).
      split.
      * eapply heap_frame_trans; [| exact Hframe].
        pose proof (heap_frame_insert w (ptr data) (off data + i) (wrap8 v) arr Harr)
          as Hins.
        destruct Hins as [Hl Hi]. split; [now rewrite Hheap |].
        intros q a Hq. rewrite Hheap. apply Hi, Hq.
      * eexists. split; [rewrite Hlog', Hlog, <- !app_assoc; reflexivity |].
        intros arr' Harr' HP. assert (arr' = arr) as -> by congruence.
        rewrite !fifo_writes_app, (cs_reads_no_fifo_write evs1),
          (cs_reads_no_fifo_write evs2) by done.
        cbn [fifo_writes omap list_omap]. rewrite fifo_write_fifo. cbn [omap list_omap app].
        rewrite (drop_S _ _ _ Hb) in HP. inversion HP as [| ? ? Hb0 Hrest]; subst.
        constructor; [done |].
        replace (omap fifo_write [EvRead fifoReg v]) with (@nil Z) by done.
        cbn [app]. eapply Hwr.
        -- rewrite Hheap. apply list_lookup_insert_eq. eapply lookup_lt_Some; eauto.
        -- replace (off data + S i)%nat with (S (off data + i)) by lia.
           rewrite drop_insert_lt by lia. exact Hrest.
Qed.


Lemma exchange_byte_returns (fuel : nat) (data : slice) (i : nat)
    (w : world D) (arr : list Z) :
  responsive fuel →
  heap w !! ptr data = Some arr →
  (i < len data)%nat → (off data + i < length arr)%nat →
  ∃ w', exchange_byte fuel data i w = Ok tt w'.
Proof.
  intros Hresp Harr Hi Hlt.
  destruct (lookup_lt_is_Some_2 arr (off data + i)%nat Hlt) as [b Hb].
  unfold exchange_byte.
  destruct (Hresp w Exchange.txd) as [w1 Hw1]; [repeat constructor |].
  rewrite (bind_Ok _ _ _ _ _ Hw1).
  apply wait_for_Ok in Hw1 as [Hh1 _].
  assert (slice_get data i w1 = Ok b w1) as Hget.
  { unfold slice_get. rewrite Hh1, Harr, Hb.
    now destruct (Nat.ltb_spec i (len data)); [| lia]. }
  rewrite (bind_Ok _ _ _ _ _ Hget).
  unfold bind at 1. unfold wr at 1. set (w2 := with_log _ _).
  assert (heap w2 = heap w) as Hh2 by (unfold w2; cbn; done). clearbody w2.
  destruct (Hresp w2 Exchange.rxd) as [w3 Hw3]; [repeat constructor |].
  rewrite (bind_Ok _ _ _ _ _ Hw3).
  apply wait_for_Ok in Hw3 as [Hh3 _].
  unfold bind. rewrite rd_eq. unfold slice_set. cbn [heap with_log with_hw].
  rewrite Hh3, Hh2, Harr.
  destruct (Nat.ltb_spec i (len data)); [| lia].
  destruct (Nat.ltb_spec (off data + i) (length arr)); [| lia].
  eauto.
Qed.

(** On responsive hardware the loop over a buffer that lies within the
    heap returns. *)
Lemma exchange_loop_returns (fuel : nat) (data : slice) (n i : nat)
    (w : world D) (arr : list Z) :
  responsive fuel →
  heap w !! ptr data = Some arr →
  (i + n ≤ len data)%nat → (off data + len data ≤ length arr)%nat →
  ∃ w', exchange_loop fuel data i n w = Ok tt w'.
Proof.
  intros Hresp. revert i w arr. induction n as [| n IH]; intros i w arr Harr Hin Hlen.
  - cbn. eauto.
  - cbn [exchange_loop].
    destruct (exchange_byte_returns fuel data i w arr) as [w1 Hw1]; [done | done | lia.. |].
    rewrite (bind_Ok _ _ _ _ _ Hw1).
    destruct (exchange_byte_cases _ _ _ _ _ Hw1)
      as [(? & _ & _ & _ & Hnot) | [(? & ? & ? & ? & _ & _ & _ & _ & _ & _ & Hnot)
         | (arr' & b & evs1 & evs2 & v & Harr' & Hb & _ & _ & Hheap & _ & _)]].
    1, 2: exfalso; apply Hnot; red; eauto.
    cbn [world_of] in Hheap. assert (arr' = arr) as -> by congruence.
    eapply (IH (S i) w1 (<[(off data + i)%nat := wrap8 v]> arr)).
    + rewrite Hheap. apply list_lookup_insert_eq. eapply lookup_lt_Some; eauto.
    + lia.
    + rewrite length_insert. lia.
Qed.

(** [I2cExchange] is the loop between a prologue and an epilogue that only
    touch the control register. *)
Lemma I2cExchange_unfold_at (fuel : nat) (data : slice) (w : world D) :
  I2cExchange fuel data w =
    match exchange_loop fuel data 0 (len data) (world_of (exchange_begin w)) with
    | Ok _ w1 =>
        match wait_for fuel Exchange.done w1 with
        | Ok _ w2 =>
            bind (rd csReg) (fun v => wr csReg (Z.ldiff v Exchange.ta)) w2
        | Hang w2 => Hang w2
        | Panic w2 => Panic w2
        end
    | Hang w1 => Hang w1
    | Panic w1 => Panic w1
    end.
Proof.
  unfold I2cExchange, exchange_begin, clearI2cTxRxFifo, bind, rd, wr.
  destruct (i2cMem_get (hw w) csReg) as [v1 d1]. cbn [hw with_hw with_log log heap].
  destruct (i2cMem_get (i2cMem_set d1 csReg (Z.lor v1 clearTxRx)) csReg) as [v2 d2].
  cbn [hw with_hw with_log log heap world_of].
  match goal with |- context [exchange_loop fuel data 0 (len data) ?w0] =>
    destruct (exchange_loop fuel data 0 (len data) w0); [| done..] end.
  destruct (wait_for fuel Exchange.done w0); done.
Qed.

Lemma exchange_begin_world (w : world D) :
  heap (world_of (exchange_begin w)) = heap w
  ∧ ∃ pre, log (world_of (exchange_begin w)) = log w ++ pre ∧ cs_only pre.
Proof.
  unfold exchange_begin, clearI2cTxRxFifo, bind, rd, wr.
  destruct (i2cMem_get (hw w) csReg) as [v1 d1]. cbn [hw with_hw with_log log heap].
  destruct (i2cMem_get (i2cMem_set d1 csReg (Z.lor v1 clearTxRx)) csReg) as [v2 d2].
  cbn [hw with_hw with_log log heap world_of].
  split; [done |]. eexists. split.
  - rewrite <- !app_assoc. reflexivity.
  - repeat constructor; eauto.
Qed.

Lemma I2cExchange_unfold (fuel : nat) (data : slice) (w : world D) :
  ∃ w0 pre,
    heap w0 = heap w ∧ log w0 = log w ++ pre ∧ cs_only pre
    ∧ I2cExchange fuel data w =
        match exchange_loop fuel data 0 (len data) w0 with
        | Ok _ w1 =>
            match wait_for fuel Exchange.done w1 with
            | Ok _ w2 =>
                bind (rd csReg) (fun v => wr csReg (Z.ldiff v Exchange.ta)) w2
            | Hang w2 => Hang w2
            | Panic w2 => Panic w2
            end
        | Hang w1 => Hang w1
        | Panic w1 => Panic w1
        end.
Proof.
  destruct (exchange_begin_world w) as (Hh & pre & Hl & Hpre).
  exists (world_of (exchange_begin w)), pre.
  repeat split; try done. apply I2cExchange_unfold_at.
Qed.

Lemma rmw_world (f : Z → Z) (w : world D) :
  ∃ w' v, bind (rd csReg) (fun v => wr csReg (f v)) w = Ok tt w'
          ∧ heap w' = heap w
          ∧ log w' = log w ++ [EvRead csReg v; EvWrite csReg (f v)].
Proof.
  unfold bind. rewrite rd_eq. unfold wr. eexists _, _.
  split; [reflexivity |]. cbn. now rewrite <- app_assoc.
Qed.

(** However [I2cExchange] ends: only the buffer's array may have changed,
    and the bytes written to the FIFO are bytes the buffer held. *)
Lemma I2cExchange_world (P : Z → Prop) (fuel : nat) (data : slice) (w : world D) :
  heap_frame (ptr data) w (world_of (I2cExchange fuel data w))
  ∧ ∃ evs, log (world_of (I2cExchange fuel data w)) = log w ++ evs
           ∧ (csReg ≠ fifoReg →
              ∀ arr, heap w !! ptr data = Some arr →
                     Forall P (drop (off data) arr) →
                     Forall P (fifo_writes evs)).
Proof.
  destruct (I2cExchange_unfold fuel data w) as (w0 & pre & Hh0 & Hl0 & Hpre & ->).
  destruct (exchange_loop_world P fuel data (len data) 0 w0)
    as (Hframe & evs & Hlog & Hwr).
  assert (heap_frame (ptr data) w w0) as Hf0 by now apply heap_frame_refl.
  assert (∀ tl, cs_only tl → csReg ≠ fifoReg →
            ∀ arr, heap w !! ptr data = Some arr →
                   Forall P (drop (off data) arr) →
                   Forall P (fifo_writes (pre ++ evs ++ tl))) as Hwr'.
  { intros tl Htl Hne arr Harr HP.
    rewrite !fifo_writes_app, (cs_only_no_fifo_write tl),
      (cs_only_no_fifo_write pre), app_nil_r by done.
    apply (Hwr arr); [now rewrite Hh0 |]. now rewrite Nat.add_0_r. }
  destruct (exchange_loop fuel data 0 (len data) w0) as [[] w1 | w1 | w1];
    cbn [world_of] in *.
  2, 3: split; [eapply heap_frame_trans; eauto |];
    exists (pre ++ evs ++ []); split;
    [rewrite Hlog, Hl0, app_nil_r, <- app_assoc; done | apply Hwr'; constructor].
  pose proof (wait_for_world fuel Exchange.done w1) as (Hh2 & evs2 & Hl2 & Hq2).
  destruct (wait_for fuel Exchange.done w1) as [[] w2 | w2 | w2]; cbn [world_of] in *.
  2, 3: split; [eapply heap_frame_trans; [exact Hf0 |];
                eapply heap_frame_trans; [exact Hframe | now apply heap_frame_refl] |];
    exists (pre ++ evs ++ evs2); split;
    [rewrite Hl2, Hlog, Hl0, <- !app_assoc; done
    | apply Hwr'; now apply cs_reads_cs_only].
  destruct (rmw_world (fun v => Z.ldiff v Exchange.ta) w2) as (w3 & v & -> & Hh3 & Hl3).
  cbn [world_of]. split.
  - eapply heap_frame_trans; [exact Hf0 |].
    eapply heap_frame_trans; [exact Hframe |]. apply heap_frame_refl. congruence.
  - exists (pre ++ evs ++ evs2 ++ [EvRead csReg v; EvWrite csReg (Z.ldiff v Exchange.ta)]).
    split; [rewrite Hl3, Hl2, Hlog, Hl0, <- !app_assoc; done |].
    apply Hwr'. apply cs_only_app; [now apply cs_reads_cs_only |].
    repeat constructor; eauto.
Qed.

(** On an empty buffer [I2cExchange] leaves the whole heap as it is. *)
Lemma I2cExchange_empty_heap (fuel : nat) (data : slice) (w : world D) :
  len data = 0%nat → heap (world_of (I2cExchange fuel data w)) = heap w.
Proof.
  intros Hlen.
  destruct (I2cExchange_unfold fuel data w) as (w0 & pre & Hh0 & _ & _ & ->).
  rewrite Hlen. cbn [exchange_loop ret].
  pose proof (wait_for_world fuel Exchange.done w0) as (Hh2 & _).
  destruct (wait_for fuel Exchange.done w0) as [[] w2 | w2 | w2]; cbn [world_of] in *.
  2, 3: congruence.
  destruct (rmw_world (fun v => Z.ldiff v Exchange.ta) w2) as (w3 & v & -> & Hh3 & _).
  cbn [world_of]. congruence.
Qed.


(** On responsive hardware [I2cExchange] on a buffer that lies within the
    heap returns. *)
Lemma I2cExchange_returns (fuel : nat) (data : slice) (w : world D) :
  responsive fuel → valid_slice w data →
  ∃ w', I2cExchange fuel data w = Ok tt w'.
Proof.
  intros Hresp (arr & Harr & Hlen).
  destruct (I2cExchange_unfold fuel data w) as (w0 & pre & Hh0 & _ & _ & ->).
  destruct (exchange_loop_returns fuel data (len data) 0 w0 arr) as [w1 ->];
    [done | now rewrite Hh0 | lia | done |].
  destruct (Hresp w1 Exchange.done) as [w2 ->]; [repeat constructor |].
  destruct (rmw_world (fun v => Z.ldiff v Exchange.ta) w2) as (w3 & v & -> & _).
  eauto.
Qed.

End ExchangeFacts.

(** ** The simulated window responds *)

Lemma land_lor_raised (x r m k : Z) :
  Z.testbit r k = true → Z.testbit m k = true → Z.land (Z.lor x r) m ≠ 0.
Proof.
  intros Hr Hm Hz.
  assert (Z.testbit (Z.land (Z.lor x r) m) k = true) as Hbit
    by (rewrite Z.land_spec, Z.lor_spec, Hr, Hm; now rewrite orb_true_r).
  rewrite Hz, Z.bits_0 in Hbit. discriminate.
Qed.

Lemma sim_cs_ne_fifo (flags : Z) : csReg (D := sim flags) ≠ fifoReg (D := sim flags).
Proof. discriminate. Qed.

Lemma sim_spi_responsive (fuel : nat) : responsive (D := sim spi_ready) (S fuel).
Proof.
  intros w mask Hmask. cbn [wait_for]. unfold bind. rewrite rd_eq.
  cbn [i2cMem_get sim_window sim_get csReg fst]. cbn [Z.eqb].
  assert (Z.land (Z.lor (cs_word (hw w)) spi_ready) mask ≠ 0) as Hnz.
  { apply elem_of_cons in Hmask as [-> | Hmask];
      [apply (land_lor_raised _ _ _ 18); reflexivity |].
    apply elem_of_cons in Hmask as [-> | Hmask];
      [apply (land_lor_raised _ _ _ 17); reflexivity |].
    apply elem_of_cons in Hmask as [-> | Hmask];
      [apply (land_lor_raised _ _ _ 16); reflexivity |].
    now apply elem_of_nil in Hmask. }
  destruct (Z.eqb_spec (Z.land (Z.lor (cs_word (hw w)) spi_ready) mask) 0); [done |].
  eauto.
Qed.

(** On a window that raises the bits of the Status Register Bit Masks and
    not bits 16 to 18, the wait for [Exchange.txd] never ends. *)
Lemma sim_bsc_wait_hangs (fuel : nat) (w : world (sim bsc_ready)) :
  Z.land (cs_word (hw w)) Exchange.txd = 0 →
  ∃ w', wait_for fuel Exchange.txd w = Hang w'.
Proof.
  revert w. induction fuel as [| fuel IH]; intros w Hcs.
  - cbn. eauto.
  - cbn [wait_for]. unfold bind. rewrite rd_eq.
    cbn [i2cMem_get sim_window sim_get csReg fst snd]. cbn [Z.eqb].
    rewrite Z.land_lor_distr_l, Hcs.
    change (Z.lor 0 (Z.land bsc_ready Exchange.txd) =? 0) with true. cbv iota.
    apply IH. exact Hcs.
Qed.

(** ** The claims on the byte exchange *)

(** C1: the code polls bits 18, 17 and 16 of the word at [csReg], not the
    bits [statusTXAcceptsData], [statusRXContainsData] and
    [statusTransferDone] of the Status Register Bit Masks.  On a window that
    holds exactly those three status bits raised, [I2cExchange] of one byte
    never gets past its first transmit wait, whatever the bound on the
    polls, and never touches the FIFO; on a window that raises bits 16 to 18
    instead it returns. *)
Theorem C1_I2cExchange_ignores_status_masks (fuel : nat) :
  (∃ w', I2cExchange fuel one_byte (sim_world bsc_ready [[0x41]]) = Hang w'
         ∧ fifo_accesses (D := sim bsc_ready) (log w') = [])
  ∧ returned (I2cExchange (S fuel) one_byte (sim_world spi_ready [[0x41]]))
  ∧ Exchange.txd ≠ statusTXAcceptsData
  ∧ Exchange.rxd ≠ statusRXContainsData
  ∧ Exchange.done ≠ statusTransferDone.
Proof.
  split; [| split; [| done]].
  - rewrite I2cExchange_unfold_at.
    set (w0 := world_of (exchange_begin (sim_world bsc_ready [[65]]))).
    assert (Z.land (cs_word (hw w0)) Exchange.txd = 0) as Hcs by reflexivity.
    assert (log w0 = [EvRead 0 50; EvWrite 0 50; EvRead 0 50; EvWrite 0 178])
      as Hlog0 by reflexivity.
    clearbody w0.
    cbn [exchange_loop len one_byte]. unfold bind at 1.
    unfold exchange_byte. unfold bind at 1.
    pose proof (wait_for_world fuel Exchange.txd w0) as (_ & evs & Hlog & Hq).
    destruct (sim_bsc_wait_hangs fuel w0 Hcs) as [w' Hw'].
    rewrite Hw' in *. cbn [world_of] in Hlog.
    exists w'. split; [reflexivity |].
    rewrite Hlog, Hlog0, fifo_accesses_app.
    rewrite (cs_reads_no_fifo_access evs) by (done || apply sim_cs_ne_fifo).
    reflexivity.
  - destruct (I2cExchange_returns (S fuel) one_byte (sim_world spi_ready [[0x41]]))
      as [w' Hw'].
    + apply sim_spi_responsive.
    + exists [0x41]. split; [reflexivity | cbn; lia].
    + red. eauto.
Qed.



Section Wrappers.
Context {D : Type} {W : Window D}.

Lemma world_of_bind_ret {A B} (c : M D A) (b : B) (w : world D) :
  world_of (bind c (fun _ => ret b) w) = world_of (c w).
Proof. unfold bind. now destruct (c w). Qed.

Lemma heap_frame_other (p q : nat) (w w' : world D) (arr : list Z) :
  heap_frame p w w' → q ≠ p → heap w !! q = Some arr → heap w' !! q = Some arr.
Proof.
  intros [_ Hf] Hne Hq. destruct (Hf q arr Hq) as (arr' & Hq' & _ & Hsame).
  now rewrite Hq', Hsame.
Qed.

Lemma slice_view_Some (w : world D) (s : slice) (bytes : list Z) :
  slice_view w s = Some bytes ↔
  ∃ arr, heap w !! ptr s = Some arr
         ∧ (off s + len s ≤ length arr)%nat
         ∧ bytes = take (len s) (drop (off s) arr).
Proof.
  unfold slice_view. destruct (heap w !! ptr s) as [arr |]; cbn.
  - destruct (Nat.leb_spec (off s + len s) (length arr)).
    + split.
      * intros [= <-]. eauto.
      * intros (arr' & [= <-] & _ & ->). done.
    + split; [done |]. intros (arr' & [= <-] & ? & _). lia.
  - split; [done |]. intros (? & ? & _). done.
Qed.

(** However [I2cTransmit] ends, every array the heap held before the call
    holds the same bytes after it. *)
Lemma I2cTransmit_heap (fuel : nat) (data : slice) (w : world D) :
  ∀ q arr, heap w !! q = Some arr →
           heap (world_of (I2cTransmit fuel data w)) !! q = Some arr.
Proof.
  intros q arr0 Hq. unfold I2cTransmit.
  unfold bind at 1. unfold slice_elems.
  destruct (heap w !! ptr data) as [arr |] eqn:Harr.
  - destruct (Nat.leb_spec (off data + len data) (length arr)) as [Hlen | Hlen];
      [| exact Hq].
    unfold bind at 1. unfold slice3. cbn [Nat.leb andb].
    unfold bind at 1. unfold append_bytes. cbn [ptr off len cap Nat.sub Nat.add].
    rewrite Harr.
    assert (length (take (len data) (drop (off data) arr)) = len data) as Hel
      by (rewrite length_take, length_drop; lia).
    set (elems := take (len data) (drop (off data) arr)) in *.
    destruct (Nat.leb_spec (length elems) 0) as [Hfit | Hgrow].
    + assert (elems = []) as -> by (apply length_zero_iff_nil; lia).
      cbn [list_inserts length Nat.add].
      rewrite I2cExchange_empty_heap by done. cbn [heap with_heap].
      now rewrite list_insert_id by done.
    + set (clone := {| ptr := length (heap w) |}).
      set (w1 := with_heap w _).
      pose proof (I2cExchange_world (fun _ => True) fuel clone w1) as [Hframe _].
      eapply heap_frame_other; [exact Hframe | |].
      * cbn. apply lookup_lt_Some in Hq. lia.
      * cbn. now apply lookup_app_l_Some.
  - destruct (Nat.eqb_spec (len data) 0) as [Hlen | Hlen]; [| exact Hq].
    unfold bind at 1. unfold slice3. cbn [Nat.leb andb].
    unfold bind at 1. unfold append_bytes.
    cbn [ptr off len cap length Nat.add Nat.sub Nat.leb].
    rewrite Harr. now rewrite I2cExchange_empty_heap.
Qed.

End Wrappers.

(** C6: with the FIFO register apart from the control register and
    [0 ≤ n], every byte [I2cReceive] writes to the FIFO register is zero,
    however the call ends; when it returns, the slice it returns has length
    [n] and shows [n] bytes; and on responsive hardware it does return. *)
Theorem C6_I2cReceive_length_and_zero_writes
    {D : Type} {W : Window D} (fuel : nat) (n : Z) (w : world D) :
  csReg ≠ fifoReg → 0 ≤ n →
  Forall (fun b => b = 0)
         (fifo_writes (trace_since w (world_of (I2cReceive fuel n w))))
  ∧ (∀ s w', I2cReceive fuel n w = Ok s w' →
             Z.of_nat (len s) = n
             ∧ ∃ bytes, slice_view w' s = Some bytes ∧ Z.of_nat (length bytes) = n)
  ∧ (responsive fuel → returned (I2cReceive fuel n w)).
Proof.
  intros Hne Hn.
  set (data := {| ptr := length (heap w); off := 0;
                  len := Z.to_nat n; cap := Z.to_nat n |}).
  set (w0 := with_heap w (heap w ++ [replicate (Z.to_nat n) 0])).
  assert (I2cReceive fuel n w = bind (I2cExchange fuel data) (fun _ => ret data) w0)
    as ->.
  { unfold I2cReceive. unfold bind at 1. unfold make_bytes.
    now replace (n <? 0) with false by (symmetry; apply Z.ltb_ge; lia). }
  assert (heap w0 !! ptr data = Some (replicate (Z.to_nat n) 0)) as Harr
    by (cbn; now apply list_lookup_middle).
  destruct (I2cExchange_world (fun b => b = 0) fuel data w0)
    as (Hframe & evs & Hlog & Hzero).
  split; [| split].
  - rewrite world_of_bind_ret.
    rewrite (trace_since_app w _ evs) by exact Hlog.
    apply (Hzero Hne _ Harr). apply Forall_drop, Forall_replicate. reflexivity.
  - intros s w' Hrun. unfold bind in Hrun.
    destruct (I2cExchange fuel data w0) as [[] w1 | w1 | w1]; try discriminate.
    injection Hrun as <- <-. cbn [world_of] in Hframe.
    split; [cbn; lia |].
    destruct Hframe as [_ Hf].
    destruct (Hf _ _ Harr) as (arr' & Harr' & Hlen' & _).
    rewrite length_replicate in Hlen'.
    eexists. split.
    + apply slice_view_Some. exists arr'. split; [exact Harr' |].
      split; [cbn; lia | reflexivity].
    + cbn. rewrite length_take, length_drop. lia.
  - intros Hresp.
    destruct (I2cExchange_returns fuel data w0 Hresp) as [w1 Hw1].
    { eexists. split; [exact Harr |]. rewrite length_replicate. cbn. lia. }
    unfold bind. rewrite Hw1. red. eauto.
Qed.

Lemma C6_witness :
  Forall (fun b => b = 0)
         (fifo_writes (D := sim spi_ready)
            (trace_since (sim_world spi_ready [])
                         (world_of (I2cReceive 1 3 (sim_world spi_ready [])))))
  ∧ (∀ s w', I2cReceive 1 3 (sim_world spi_ready []) = Ok s w' →
             Z.of_nat (len s) = 3
             ∧ ∃ bytes, slice_view w' s = Some bytes ∧ Z.of_nat (length bytes) = 3)
  ∧ returned (I2cReceive 1 3 (sim_world spi_ready [])).
Proof.
  destruct (C6_I2cReceive_length_and_zero_writes 1 3 (sim_world spi_ready [])
              (sim_cs_ne_fifo spi_ready) ltac:(lia)) as (Hzero & Hlen & Hret).
  split; [exact Hzero |]. split; [exact Hlen |].
  apply Hret, (sim_spi_responsive 0).
Defined.

(** C7: however [I2cTransmit] ends, the bytes the caller's slice shows
    after the call are the bytes it showed before, and so it is for every
    array the heap held before the call. *)
Theorem C7_I2cTransmit_leaves_caller_bytes
    {D : Type} {W : Window D} (fuel : nat) (data : slice) (w : world D)
    (bytes : list Z) :
  slice_view w data = Some bytes →
  slice_view (world_of (I2cTransmit fuel data w)) data = Some bytes
  ∧ ∀ q arr, heap w !! q = Some arr →
             heap (world_of (I2cTransmit fuel data w)) !! q = Some arr.
Proof.
  intros Hview. split; [| apply I2cTransmit_heap].
  apply slice_view_Some in Hview as (arr & Harr & Hlen & ->).
  apply slice_view_Some. exists arr.
  split; [now apply I2cTransmit_heap | done].
Qed.

Lemma C7_witness :
  slice_view (world_of (I2cTransmit 1 one_byte (sim_world spi_ready [[0x41]])))
             one_byte = Some [0x41]
  ∧ ∀ q arr, heap (sim_world spi_ready [[0x41]]) !! q = Some arr →
             heap (world_of (I2cTransmit 1 one_byte (sim_world spi_ready [[0x41]])))
               !! q = Some arr.
Proof.
  apply (C7_I2cTransmit_leaves_caller_bytes 1 one_byte
           (sim_world spi_ready [[0x41]]) [0x41]).
  reflexivity.
Defined.

(** Without the clone the caller's byte would be gone: [I2cExchange] on the
    same slice leaves the slave's answer in its place. *)
Example I2cExchange_overwrites_buffer :
  slice_view (world_of (I2cExchange 1 one_byte (sim_world spi_ready [[0x41]])))
             one_byte = Some [0xA5].
Proof. reflexivity. Qed.

(** * Further properties of the engine *)

Section ControlWord.
Context {D : Type} {W : Window D}.

Lemma testbit_3 (j : Z) : Z.testbit 3 j = (0 <=? j) && (j <? 2).
Proof. change 3 with (Z.ones 2). apply Z.testbit_ones. lia. Qed.

Lemma chip_field (chip : Z) :
  wrap32 (wrap8 (Z.land chip 3)) = Z.land chip 3.
Proof.
  change 3 with (Z.ones 2). rewrite Z.land_ones by lia.
  assert (0 ≤ chip mod 2 ^ 2 < 2 ^ 2) as Hm by (apply Z.mod_pos_bound; lia).
  change (2 ^ 2) with 4 in *. set (x := chip mod 4) in *. clearbody x.
  unfold wrap32, wrap8.
  change (2 ^ 8) with 256. change (2 ^ 32) with 4294967296.
  rewrite (Z.mod_small x 256) by lia. apply Z.mod_small. lia.
Qed.

(** What [I2cBegin] does, by the word read back after the reset. *)
Lemma I2cBegin_run (dev : Z) (w : world D) :
  let readback := (i2cMem_get (i2cMem_set (hw w) csReg 0) csReg).1 in
  ∃ res w',
    I2cBegin dev w = Ok res w'
    ∧ heap w' = heap w
    ∧ (readback = 0 →
       res = Some I2cMapError
       ∧ log w' = log w ++ [EvWrite csReg 0; EvRead csReg 0]
       ∧ i2cByteWaitMicroseconds w' = i2cByteWaitMicroseconds w)
    ∧ (readback ≠ 0 →
       res = None
       ∧ ∃ cdiv,
           log w' = log w
             ++ [EvWrite csReg 0; EvRead csReg readback]
             ++ map (fun p => EvPinMode p I2c) (getI2cPins dev)
             ++ [EvSpiRead clockDividerReg cdiv; EvLog (byte_wait cdiv);
                 EvWrite clkDivReg i2cClockDivider2500]
           ∧ i2cByteWaitMicroseconds w' = byte_wait cdiv).
Proof.
  intros readback. unfold I2cBegin.
  unfold bind at 1. unfold wr at 1.
  unfold bind at 1. rewrite rd_eq. cbn [hw with_hw with_log log].
  fold readback.
  destruct (Z.eqb_spec readback 0) as [Hz | Hnz].
  - eexists _, _. split; [reflexivity |]. split; [done |].
    split; [| done]. intros _. cbn. rewrite Hz, <- app_assoc. done.
  - unfold bind at 1.
    match goal with |- context [set_pins ?p ?m ?w0] =>
      destruct (set_pins_eq p m w0) as (w1 & -> & Hlog1 & Hheap1 & _) end.
    unfold bind at 1. unfold spi_rd.
    destruct (spiMem_get (hw w1) clockDividerReg) as [cdiv d2] eqn:Hspi.
    eexists _, _. split; [reflexivity |]. split; [cbn; now rewrite Hheap1 |].
    split; [done |]. intros _. split; [done |]. exists cdiv.
    cbn. rewrite Hlog1. cbn. rewrite <- !app_assoc. done.
Qed.

End ControlWord.

(** X1: on a control register that is plain storage, [I2cChipSelect] makes
    bits 0 and 1 of the register the two low bits of [chip] and leaves every
    other bit as it was; so a chip value of 4 or more selects
    [chip mod 4]. *)
Theorem I2cChipSelect_writes_low_two_bits
    {D : Type} {W : Window D} (chip : Z) (w : world D) :
  cs_is_storage →
  ∃ w', I2cChipSelect chip w = Ok tt w'
        ∧ (∀ j, Z.testbit (cs_value w') j =
                if (0 <=? j) && (j <? 2) then Z.testbit chip j
                else Z.testbit (cs_value w) j)
        ∧ Z.land (cs_value w') 3 = chip mod 4.
Proof.
  intros HS. unfold I2cChipSelect. cbv zeta. rewrite chip_field.
  destruct (rmw_storage (fun v => Z.lor (Z.ldiff v 3) (Z.land chip 3)) w HS)
    as (w' & Hrun & Hval).
  exists w'. split; [exact Hrun |].
  assert (∀ j, Z.testbit (cs_value w') j =
               if (0 <=? j) && (j <? 2) then Z.testbit chip j
               else Z.testbit (cs_value w) j) as Hbits.
  { intros j. rewrite Hval, Z.lor_spec, Z.ldiff_spec, Z.land_spec, testbit_3.
    destruct ((0 <=? j) && (j <? 2)); cbn.
    - now rewrite andb_false_r, andb_true_r.
    - now rewrite andb_true_r, andb_false_r, orb_false_r. }
  split; [exact Hbits |].
  change 3 with (Z.ones 2). rewrite Z.land_ones by lia.
  change 4 with (2 ^ 2).
  apply Z.bits_inj'. intros j Hj.
  rewrite !Z.testbit_mod_pow2, Hbits by lia.
  replace (0 <=? j) with true by (symmetry; apply Z.leb_le; lia).
  cbn. now destruct (j <? 2).
Qed.

Lemma I2cChipSelect_witness :
  ∃ w', I2cChipSelect 6 (sim_world 0 []) = Ok tt w'
        ∧ (∀ j, Z.testbit (cs_value w') j =
                if (0 <=? j) && (j <? 2) then Z.testbit 6 j
                else Z.testbit (cs_value (sim_world 0 [])) j)
        ∧ Z.land (cs_value w') 3 = 6 mod 4.
Proof.
  apply (I2cChipSelect_writes_low_two_bits 6 (sim_world 0 [])).
  exact sim0_cs_is_storage.
Defined.

(** X2: on a control register that is plain storage, [clearI2cTxRxFifo]
    sets bits 4 and 5 of the register and leaves every other bit as it
    was. *)
Theorem clearI2cTxRxFifo_sets_bits_4_and_5
    {D : Type} {W : Window D} (w : world D) :
  cs_is_storage →
  ∃ w', clearI2cTxRxFifo w = Ok tt w'
        ∧ ∀ j, Z.testbit (cs_value w') j =
               (j =? 4) || (j =? 5) || Z.testbit (cs_value w) j.
Proof.
  intros HS.
  destruct (rmw_storage (fun v => Z.lor v clearTxRx) w HS) as (w' & Hrun & Hval).
  exists w'. split; [exact Hrun |]. intros j.
  rewrite Hval. unfold clearTxRx.
  rewrite !Z.lor_spec, !testbit_shiftl_1 by lia.
  rewrite (Z.eqb_sym j 4), (Z.eqb_sym j 5).
  destruct (4 =? j), (5 =? j), (Z.testbit (cs_value w) j); reflexivity.
Qed.

Lemma clearI2cTxRxFifo_witness :
  ∃ w', clearI2cTxRxFifo (sim_world 0 []) = Ok tt w'
        ∧ ∀ j, Z.testbit (cs_value w') j =
               (j =? 4) || (j =? 5) || Z.testbit (cs_value (sim_world 0 [])) j.
Proof.
  apply (clearI2cTxRxFifo_sets_bits_4_and_5 (sim_world 0 [])).
  exact sim0_cs_is_storage.
Defined.

(** X3: [I2cEnd] always returns; it puts pins 2 and 3 in input mode for
    [I2c1] and does nothing at all for any other device; it never reads or
    writes a register, so the control register is not reset. *)
Theorem I2cEnd_only_sets_pins
    {D : Type} {W : Window D} (dev : Z) (w : world D) :
  ∃ w', I2cEnd dev w = Ok tt w'
        ∧ trace_since w w' =
            (if dev =? I2c1 then [EvPinMode 2 Input; EvPinMode 3 Input] else [])
        ∧ heap w' = heap w
        ∧ (dev ≠ I2c1 → w' = w).
Proof.
  unfold I2cEnd.
  destruct (set_pins_eq (getI2cPins dev) Input w) as (w' & Hrun & Hlog & Hheap & _).
  exists w'. split; [exact Hrun |]. split; [| split; [exact Hheap |]].
  - rewrite (trace_since_app _ _ _ Hlog). unfold getI2cPins.
    destruct (dev =? I2c0) eqn:H0; [apply Z.eqb_eq in H0; subst; reflexivity |].
    destruct (dev =? I2c1); [reflexivity |].
    now destruct (dev =? I2c2).
  - intros Hne.
    assert (getI2cPins dev = []) as Hpins.
    { unfold getI2cPins. destruct (dev =? I2c0); [done |].
      destruct (Z.eqb_spec dev I2c1); [done |]. now destruct (dev =? I2c2). }
    rewrite Hpins in Hrun. cbn in Hrun. unfold ret in Hrun. congruence.
Qed.

Lemma I2cEnd_witness :
  ∃ w', I2cEnd I2c0 (sim_world 0 []) = Ok tt w' ∧ w' = sim_world 0 [].
Proof.
  destruct (I2cEnd_only_sets_pins I2c0 (sim_world 0 [])) as (w' & Hrun & _ & _ & Hsame).
  exists w'. split; [exact Hrun |]. apply Hsame. discriminate.
Defined.

(** X4: [I2cSpeed 0] panics (integer division by zero) before any register
    access.  For any other speed exactly one value is written to the
    clock-divider register; it is even and fits in 16 bits; when
    [coreFreq / speed] is below 65536 it is that quotient rounded down to
    an even number, and it is zero when the speed exceeds the core
    frequency. *)
Theorem I2cSpeed_programs_quotient
    {D : Type} {W : Window D} (speed : Z) (w : world D) :
  let coreFreq := if isBCM2711 then 550 * 1000000 else 250 * 1000000 in
  (speed = 0 → I2cSpeed speed w = Panic w)
  ∧ (speed ≠ 0 →
     ∃ v w', I2cSpeed speed w = Ok tt w'
             ∧ trace_since w w' = [EvWrite clkDivReg v]
             ∧ Z.even v = true ∧ 0 ≤ v ≤ 0xFFFF
             ∧ (1 ≤ speed → coreFreq < 65536 * speed →
                v = 2 * ((coreFreq / speed) / 2))
             ∧ (coreFreq < speed → v = 0)).
Proof.
  intros coreFreq. unfold I2cSpeed. fold coreFreq. split.
  - intros ->. reflexivity.
  - intros Hs. destruct (Z.eqb_spec speed 0) as [| _]; [done |].
    assert (0 < coreFreq) as Hcf by (unfold coreFreq; destruct isBCM2711; lia).
    eexists _, _. split; [reflexivity |].
    split; [now apply trace_since_app |].
    pose proof (land_divMask_range (wrap32 (coreFreq ÷ speed))) as [Hr He].
    split; [exact He |]. split; [exact Hr |].
    assert (1 ≤ speed → coreFreq < 65536 * speed →
            Z.land (wrap32 (coreFreq ÷ speed)) divMask = 2 * (coreFreq / speed / 2))
      as Hsmall.
    { intros Hpos Hlt.
      rewrite Z.quot_div_nonneg by lia.
      assert (0 ≤ coreFreq / speed < 65536) as Hq.
      { split; [apply Z.div_pos; lia |]. apply Z.div_lt_upper_bound; lia. }
      unfold wrap32. rewrite (Z.mod_small (coreFreq / speed)) by lia.
      rewrite land_divMask_eq, Z.mod_small by lia. reflexivity. }
    split; [exact Hsmall |].
    intros Hbig. rewrite Hsmall by lia.
    rewrite (Z.div_small coreFreq speed) by lia. reflexivity.
Qed.

Lemma I2cSpeed_witness :
  I2cSpeed 0 (sim_world 0 []) = Panic (sim_world 0 [])
  ∧ ∃ v w', I2cSpeed 400000 (sim_world 0 []) = Ok tt w'
            ∧ trace_since (sim_world 0 []) w' = [EvWrite (clkDivReg (D := sim 0)) v]
            ∧ v = 624.
Proof.
  split.
  - apply (I2cSpeed_programs_quotient 0 (sim_world 0 [])). reflexivity.
  - destruct (I2cSpeed_programs_quotient 400000 (sim_world 0 []))
      as (_ & Hrun).
    destruct Hrun as (v & w' & Hrun & Htrace & _ & _ & Hv & _); [lia |].
    exists v, w'. split; [exact Hrun |]. split; [exact Htrace |].
    apply Hv; cbn; lia.
Defined.

(** X5: on a control register that is plain storage the word read back
    after the reset is the zero just written, so [I2cBegin] fails with the
    mapping error for every device, having configured no pin and programmed
    no divider. *)
Theorem I2cBegin_fails_on_storage
    {D : Type} {W : Window D} (dev : Z) (w : world D) :
  cs_is_storage →
  ∃ w', I2cBegin dev w = Ok (Some I2cMapError) w'
        ∧ trace_since w w' = [EvWrite csReg 0; EvRead csReg 0]
        ∧ i2cByteWaitMicroseconds w' = i2cByteWaitMicroseconds w.
Proof.
  intros [_ Hsame].
  destruct (I2cBegin_run dev w) as (res & w' & Hrun & _ & Hzero & _).
  destruct (Hzero (Hsame _ _)) as (-> & Hlog & Hwait).
  exists w'. split; [exact Hrun |]. split; [| exact Hwait].
  now apply trace_since_app.
Qed.

Lemma I2cBegin_storage_witness :
  ∃ w', I2cBegin I2c1 (sim_world 0 []) = Ok (Some I2cMapError) w'
        ∧ trace_since (sim_world 0 []) w'
          = [EvWrite (csReg (D := sim 0)) 0; EvRead (csReg (D := sim 0)) 0]
        ∧ i2cByteWaitMicroseconds w' = i2cByteWaitMicroseconds (sim_world 0 []).
Proof.
  apply (I2cBegin_fails_on_storage I2c1 (sim_world 0 [])).
  exact sim0_cs_is_storage.
Defined.

(** X6: [NewPiSugar] of pi_sugar.go hands out the handle exactly when the
    control register does not read back zero after the reset; it has then
    put pins 2 and 3 in I2C mode and programmed the divider 2500, and
    otherwise it returns the mapping error and no handle. *)
Theorem NewPiSugar_handle_iff_readback_nonzero
    {D : Type} {W : Window D} (w : world D) :
  let readback := (i2cMem_get (i2cMem_set (hw w) csReg 0) csReg).1 in
  ∃ res w',
    PiSugarBus.NewPiSugar w = Ok res w'
    ∧ (readback = 0 → res = (None, Some I2cMapError)
                      ∧ trace_since w w' = [EvWrite csReg 0; EvRead csReg 0])
    ∧ (readback ≠ 0 →
       res = (Some tt, None)
       ∧ ∃ cdiv,
           trace_since w w' =
             [EvWrite csReg 0; EvRead csReg readback;
              EvPinMode 2 I2c; EvPinMode 3 I2c;
              EvSpiRead clockDividerReg cdiv; EvLog (byte_wait cdiv);
              EvWrite clkDivReg i2cClockDivider2500]).
Proof.
  intros readback. unfold PiSugarBus.NewPiSugar, bind.
  destruct (I2cBegin_run I2c1 w) as (res & w' & -> & _ & Hzero & Hnz).
  fold readback in Hzero, Hnz.
  destruct (Z.eq_dec readback 0) as [Hr | Hr].
  - destruct (Hzero Hr) as (-> & Hlog & _).
    eexists _, _. split; [reflexivity |]. split; [| done].
    intros _. split; [done |]. now apply trace_since_app.
  - destruct (Hnz Hr) as (-> & cdiv & Hlog & _).
    eexists _, _. split; [reflexivity |]. split; [done |].
    intros _. split; [done |]. exists cdiv. now apply trace_since_app.
Qed.

Lemma NewPiSugar_witness :
  ∃ res w', PiSugarBus.NewPiSugar (sim_world spi_ready []) = Ok res w'
            ∧ res = (Some tt, None).
Proof.
  destruct (NewPiSugar_handle_iff_readback_nonzero (sim_world spi_ready []))
    as (res & w' & Hrun & _ & Hnz).
  exists res, w'. split; [exact Hrun |]. apply Hnz. discriminate.
Defined.

(** ** What the exchange moves *)

Section DataFlow.
Context {D : Type} {W : Window D}.

Lemma fifo_reads_app (a b : list event) :
  fifo_reads (a ++ b) = fifo_reads a ++ fifo_reads b.
Proof. apply omap_app. Qed.

Lemma cs_writes_app (a b : list event) :
  cs_writes (a ++ b) = cs_writes a ++ cs_writes b.
Proof. apply omap_app. Qed.

Lemma cs_only_no_fifo_read (evs : list event) :
  csReg ≠ fifoReg → cs_only evs → fifo_reads evs = [].
Proof.
  intros Hne. unfold fifo_reads.
  induction 1 as [| e evs [v [-> | ->]] _ IH]; [done | | exact IH].
  cbn [omap list_omap fifo_read]. now destruct (Z.eqb_spec csReg fifoReg).
Qed.

Lemma cs_reads_no_cs_write (evs : list event) : cs_reads evs → cs_writes evs = [].
Proof.
  unfold cs_writes. induction 1 as [| e evs [v ->] _ IH]; [done | exact IH].
Qed.

Lemma fifo_read_fifo (v : Z) : fifo_read (EvRead fifoReg v) = Some v.
Proof. cbn. now rewrite Z.eqb_refl. Qed.

Lemma cs_write_fifo (v : Z) : csReg ≠ fifoReg → cs_write (EvWrite fifoReg v) = None.
Proof. intros Hne. cbn. destruct (Z.eqb_spec fifoReg csReg); congruence. Qed.

Lemma cs_write_cs (v : Z) : cs_write (EvWrite csReg v) = Some v.
Proof. cbn. now rewrite Z.eqb_refl. Qed.

(** When the loop returns: the bytes written to the FIFO are the bytes the
    buffer held, the buffer holds the low bytes of what the FIFO answered,
    and the array is otherwise as it was. *)
Lemma exchange_loop_Ok_data (fuel : nat) (data : slice) (n i : nat)
    (w w' : world D) (u : unit) (arr : list Z) :
  csReg ≠ fifoReg →
  heap w !! ptr data = Some arr →
  exchange_loop fuel data i n w = Ok u w' →
  ∃ evs arr',
    log w' = log w ++ evs
    ∧ heap w' !! ptr data = Some arr'
    ∧ length arr' = length arr
    ∧ fifo_writes evs = take n (drop (off data + i) arr)
    ∧ take n (drop (off data + i) arr') = wrap8 <$> fifo_reads evs
    ∧ length (fifo_reads evs) = n
    ∧ cs_writes evs = []
    ∧ ∀ j, (j < off data + i ∨ off data + i + n ≤ j)%nat → arr' !! j = arr !! j.
Proof.
  intros Hne. revert i w arr. induction n as [| n IH]; intros i w arr Harr Hrun.
  - injection Hrun as _ <-. exists [], arr. rewrite app_nil_r.
    repeat split; try done.
  - cbn [exchange_loop] in Hrun.
    apply bind_inv_Ok in Hrun as ([] & w1 & Hbyte & Hrest).
    destruct (exchange_byte_cases _ _ _ _ _ Hbyte)
      as [(? & _ & _ & _ & Hnot) | [(? & ? & ? & ? & _ & _ & _ & _ & _ & _ & Hnot)
         | (arr0 & b & evs1 & evs2 & v & Harr0 & Hb & Hq1 & Hq2 & Hheap & Hlog & _)]].
    1, 2: exfalso; apply Hnot; red; eauto.
    cbn [world_of] in Hlog, Hheap.
    assert (arr0 = arr) as -> by congruence.
    assert (off data + i < length arr)%nat as Hlt by (eapply lookup_lt_Some; eauto).
    set (arr1 := <[(off data + i)%nat := wrap8 v]> arr) in *.
    assert (heap w1 !! ptr data = Some arr1) as Harr1.
    { rewrite Hheap. apply list_lookup_insert_eq. eapply lookup_lt_Some; eauto. }
    destruct (IH (S i) w1 arr1 Harr1 Hrest)
      as (evs & arr' & Hlog' & Harr' & Hlen' & Hwr & Hrd & Hcount & Hcs & Hout).
    replace (off data + S i)%nat with (S (off data + i)) in * by lia.
    exists (evs1 ++ [EvWrite fifoReg b] ++ evs2 ++ [EvRead fifoReg v] ++ evs), arr'.
    split; [rewrite Hlog', Hlog, <- !app_assoc; done |].
    split; [done |].
    split; [unfold arr1 in Hlen'; now rewrite length_insert in Hlen' |].
    assert (fifo_reads (evs1 ++ [EvWrite fifoReg b] ++ evs2 ++ [EvRead fifoReg v] ++ evs)
            = v :: fifo_reads evs) as Hreads.
    { rewrite !fifo_reads_app.
      rewrite (cs_only_no_fifo_read evs1), (cs_only_no_fifo_read evs2)
        by (done || now apply cs_reads_cs_only).
      cbn [fifo_reads omap list_omap app]. rewrite fifo_read_fifo. reflexivity. }
    split; [| split; [| split; [| split]]].
    + rewrite !fifo_writes_app, (cs_reads_no_fifo_write evs1),
        (cs_reads_no_fifo_write evs2) by done.
      cbn [fifo_writes omap list_omap app]. rewrite fifo_write_fifo.
      cbn [fifo_write app]. fold (fifo_writes evs). rewrite Hwr.
      rewrite (drop_S _ _ _ Hb). cbn [take].
      unfold arr1. now rewrite drop_insert_lt by lia.
    + rewrite Hreads, fmap_cons, <- Hrd.
      assert (arr' !! (off data + i)%nat = Some (wrap8 v)) as Hhere.
      { rewrite Hout by lia. unfold arr1. now apply list_lookup_insert_eq. }
      now rewrite (drop_S _ _ _ Hhere).
    + rewrite Hreads. cbn. now rewrite Hcount.
    + rewrite !cs_writes_app, (cs_reads_no_cs_write evs1),
        (cs_reads_no_cs_write evs2), Hcs by done.
      cbn [cs_writes omap list_omap app]. now rewrite cs_write_fifo.
    + intros j Hj. rewrite Hout by lia. unfold arr1.
      apply list_lookup_insert_ne. lia.
Qed.

(** The prologue of [I2cExchange], event by event. *)
Lemma exchange_begin_trace (w : world D) :
  ∃ a b, log (world_of (exchange_begin w))
         = log w ++ [EvRead csReg a; EvWrite csReg (Z.lor a clearTxRx);
                     EvRead csReg b; EvWrite csReg (Z.lor b Exchange.ta)].
Proof.
  unfold exchange_begin, clearI2cTxRxFifo, bind, rd, wr.
  destruct (i2cMem_get (hw w) csReg) as [v1 d1]. cbn [hw with_hw with_log log heap].
  destruct (i2cMem_get (i2cMem_set d1 csReg (Z.lor v1 clearTxRx)) csReg) as [v2 d2].
  cbn [hw with_hw with_log log heap world_of].
  exists v1, v2. now rewrite <- !app_assoc.
Qed.

(** When [I2cExchange] returns: what went out, what came in, and what the
    control register was told. *)
Lemma I2cExchange_Ok_data (fuel : nat) (data : slice) (w w' : world D)
    (u : unit) (arr : list Z) :
  csReg ≠ fifoReg →
  heap w !! ptr data = Some arr →
  I2cExchange fuel data w = Ok u w' →
  ∃ evs arr',
    log w' = log w ++ evs
    ∧ heap w' !! ptr data = Some arr'
    ∧ length arr' = length arr
    ∧ fifo_writes evs = take (len data) (drop (off data) arr)
    ∧ take (len data) (drop (off data) arr') = wrap8 <$> fifo_reads evs
    ∧ length (fifo_reads evs) = len data
    ∧ (∃ a b c, cs_writes evs
                = [Z.lor a clearTxRx; Z.lor b Exchange.ta; Z.ldiff c Exchange.ta])
    ∧ ∀ j, (j < off data ∨ off data + len data ≤ j)%nat → arr' !! j = arr !! j.
Proof.
  intros Hne Harr Hrun.
  rewrite I2cExchange_unfold_at in Hrun.
  destruct (exchange_begin_world w) as (Hh0 & pre & Hl0 & Hpre).
  destruct (exchange_begin_trace w) as (a & b & Hl0').
  assert (pre = [EvRead csReg a; EvWrite csReg (Z.lor a clearTxRx);
                 EvRead csReg b; EvWrite csReg (Z.lor b Exchange.ta)]) as Hpre_eq
    by (rewrite Hl0 in Hl0'; now apply app_inv_head in Hl0').
  set (w0 := world_of (exchange_begin w)) in *. clearbody w0.
  destruct (exchange_loop fuel data 0 (len data) w0) as [[] w1 | w1 | w1] eqn:Hloop;
    try discriminate.
  destruct (wait_for fuel Exchange.done w1) as [[] w2 | w2 | w2] eqn:Hwait;
    try discriminate.
  rewrite <- Hh0 in Harr.
  destruct (exchange_loop_Ok_data _ _ _ _ _ _ _ _ Hne Harr Hloop)
    as (evs & arr' & Hl1 & Harr' & Hlen' & Hwr & Hrd & Hcount & Hcs & Hout).
  rewrite Nat.add_0_r in *.
  destruct (wait_for_Ok _ _ _ _ _ Hwait) as (Hh2 & evs2 & Hl2 & Hq2).
  destruct (rmw_world (fun v => Z.ldiff v Exchange.ta) w2) as (w3 & c & Hrmw & Hh3 & Hl3).
  rewrite Hrmw in Hrun. injection Hrun as _ <-.
  exists (pre ++ evs ++ evs2 ++ [EvRead csReg c; EvWrite csReg (Z.ldiff c Exchange.ta)]),
    arr'.
  split; [rewrite Hl3, Hl2, Hl1, Hl0, <- !app_assoc; done |].
  split; [now rewrite Hh3, Hh2 |]. split; [done |].
  assert (cs_only [EvRead csReg c; EvWrite csReg (Z.ldiff c Exchange.ta)]) as Hepi
    by (repeat constructor; eauto).
  split; [| split; [| split; [| split]]].
  - rewrite !fifo_writes_app, (cs_only_no_fifo_write pre),
      (cs_reads_no_fifo_write evs2), (cs_only_no_fifo_write [_; _]) by done.
    now rewrite app_nil_r.
  - rewrite !fifo_reads_app, (cs_only_no_fifo_read pre),
      (cs_only_no_fifo_read evs2), (cs_only_no_fifo_read [_; _])
      by (done || now apply cs_reads_cs_only).
    now rewrite app_nil_r.
  - rewrite !fifo_reads_app, (cs_only_no_fifo_read pre),
      (cs_only_no_fifo_read evs2), (cs_only_no_fifo_read [_; _])
      by (done || now apply cs_reads_cs_only).
    now rewrite app_nil_r.
  - exists a, b, c.
    rewrite !cs_writes_app, Hcs, (cs_reads_no_cs_write evs2) by done.
    rewrite Hpre_eq. cbn [cs_writes omap list_omap app cs_write].
    now rewrite !Z.eqb_refl.
  - exact Hout.
Qed.

End DataFlow.

Section ExchangeMore.
Context {D : Type} {W : Window D}.

(** However the loop ends, it writes nothing to the control register. *)
Lemma exchange_loop_no_cs_write (fuel : nat) (data : slice) (n i : nat) (w : world D) :
  csReg ≠ fifoReg →
  ∃ evs, log (world_of (exchange_loop fuel data i n w)) = log w ++ evs
         ∧ cs_writes evs = [].
Proof.
  intros Hne. revert i w. induction n as [| n IH]; intros i w.
  - exists []. cbn. now rewrite app_nil_r.
  - cbn [exchange_loop]. unfold bind.
    destruct (exchange_byte_cases fuel data i w _ eq_refl)
      as [(evs & Hq & _ & Hlog & Hnot)
         | [(arr & b & evs1 & evs2 & _ & _ & Hq1 & Hq2 & _ & Hlog & Hnot)
         | (arr & b & evs1 & evs2 & v & _ & _ & Hq1 & Hq2 & _ & Hlog & Hret)]].
    + destruct (exchange_byte fuel data i w) as [[] w1 | w1 | w1];
        [exfalso; apply Hnot; red; eauto | ..]; cbn [world_of] in *.
      all: exists evs; split; [done | now apply cs_reads_no_cs_write].
    + destruct (exchange_byte fuel data i w) as [[] w1 | w1 | w1];
        [exfalso; apply Hnot; red; eauto | ..]; cbn [world_of] in *.
      all: eexists; split; [exact Hlog |].
      all: rewrite !cs_writes_app, (cs_reads_no_cs_write evs1),
             (cs_reads_no_cs_write evs2) by done.
      all: cbn [cs_writes omap list_omap app]; now rewrite cs_write_fifo.
    + rewrite Hret. set (w1 := world_of _) in *. clearbody w1.
      destruct (IH (S i) w1) as (evs & Hlog' & Hcs).
      eexists. split; [rewrite Hlog', Hlog, <- !app_assoc; reflexivity |].
      rewrite !cs_writes_app, (cs_reads_no_cs_write evs1),
        (cs_reads_no_cs_write evs2), Hcs by done.
      cbn [cs_writes omap list_omap app]. now rewrite cs_write_fifo.
Qed.

(** What [I2cExchange] tells the control register, by how it ends. *)
Lemma I2cExchange_cs_writes (fuel : nat) (data : slice) (w : world D) :
  csReg ≠ fifoReg →
  ∃ evs a b,
    log (world_of (I2cExchange fuel data w)) = log w ++ evs
    ∧ (returned (I2cExchange fuel data w) →
       ∃ c, cs_writes evs
            = [Z.lor a clearTxRx; Z.lor b Exchange.ta; Z.ldiff c Exchange.ta])
    ∧ (¬ returned (I2cExchange fuel data w) →
       cs_writes evs = [Z.lor a clearTxRx; Z.lor b Exchange.ta]).
Proof.
  intros Hne. rewrite I2cExchange_unfold_at.
  destruct (exchange_begin_trace w) as (a & b & Hl0).
  set (w0 := world_of (exchange_begin w)) in *. clearbody w0.
  set (pre := [EvRead csReg a; EvWrite csReg (Z.lor a clearTxRx);
               EvRead csReg b; EvWrite csReg (Z.lor b Exchange.ta)]) in *.
  assert (cs_writes pre = [Z.lor a clearTxRx; Z.lor b Exchange.ta]) as Hpre.
  { unfold pre. cbn [cs_writes omap list_omap cs_write]. now rewrite !Z.eqb_refl. }
  destruct (exchange_loop_no_cs_write fuel data (len data) 0 w0 Hne)
    as (evs & Hl1 & Hcs1).
  destruct (exchange_loop fuel data 0 (len data) w0) as [[] w1 | w1 | w1];
    cbn [world_of] in *.
  2, 3: exists (pre ++ evs), a, b;
    split; [rewrite Hl1, Hl0, <- app_assoc; done |];
    split; [intros (? & ? & ?); discriminate |];
    intros _; now rewrite cs_writes_app, Hcs1, app_nil_r.
  pose proof (wait_for_world fuel Exchange.done w1) as (_ & evs2 & Hl2 & Hq2).
  destruct (wait_for fuel Exchange.done w1) as [[] w2 | w2 | w2]; cbn [world_of] in *.
  2, 3: exists (pre ++ evs ++ evs2), a, b;
    split; [rewrite Hl2, Hl1, Hl0, <- !app_assoc; done |];
    split; [intros (? & ? & ?); discriminate |];
    intros _; rewrite !cs_writes_app, Hcs1, (cs_reads_no_cs_write evs2) by done;
    now rewrite !app_nil_r.
  destruct (rmw_world (fun v => Z.ldiff v Exchange.ta) w2) as (w3 & c & -> & _ & Hl3).
  cbn [world_of].
  exists (pre ++ evs ++ evs2 ++ [EvRead csReg c; EvWrite csReg (Z.ldiff c Exchange.ta)]),
    a, b.
  split; [rewrite Hl3, Hl2, Hl1, Hl0, <- !app_assoc; done |].
  split.
  - intros _. exists c.
    rewrite !cs_writes_app, Hcs1, (cs_reads_no_cs_write evs2), Hpre by done.
    cbn [cs_writes omap list_omap app cs_write]. now rewrite Z.eqb_refl.
  - intros Hnot. exfalso. apply Hnot. red. eauto.
Qed.

(** On storage, a wait for a bit the control word does not hold never
    ends. *)
Lemma wait_for_storage_hangs (fuel : nat) (mask : Z) (w : world D) :
  cs_is_storage → Z.land (cs_value w) mask = 0 →
  ∃ w', wait_for fuel mask w = Hang w'.
Proof.
  intros [Hpure Hsame]. revert w. induction fuel as [| fuel IH]; intros w Hcs.
  - cbn. eauto.
  - cbn [wait_for]. unfold bind. rewrite rd_eq. fold (cs_value w).
    rewrite Hcs. cbn [Z.eqb]. apply IH.
    unfold cs_value. cbn [hw with_log with_hw]. now rewrite Hpure.
Qed.

Lemma exchange_begin_storage (w : world D) :
  cs_is_storage →
  cs_value (world_of (exchange_begin w))
  = Z.lor (Z.lor (cs_value w) clearTxRx) Exchange.ta.
Proof.
  intros HS.
  destruct (rmw_storage (fun v => Z.lor v clearTxRx) w HS) as (w1 & Hrun1 & Hval1).
  destruct (rmw_storage (fun v => Z.lor v Exchange.ta) w1 HS) as (w2 & Hrun2 & Hval2).
  assert (exchange_begin w = Ok tt w2) as ->.
  { unfold exchange_begin, clearI2cTxRxFifo. unfold bind at 1.
    rewrite Hrun1. exact Hrun2. }
  cbn [world_of]. now rewrite Hval2, Hval1.
Qed.

Lemma land_bit_clear (v k : Z) :
  0 ≤ k → Z.testbit v k = false → Z.land v (Z.shiftl 1 k) = 0.
Proof.
  intros Hk Hbit. apply Z.bits_inj'. intros j Hj.
  rewrite Z.land_spec, testbit_shiftl_1, Z.bits_0 by lia.
  destruct (Z.eqb_spec k j) as [<- | _]; [now rewrite Hbit | apply andb_false_r].
Qed.

(** What [I2cTransmit] hands to [I2cExchange]: a buffer that shows the
    caller's bytes. *)
Lemma I2cTransmit_unfold (fuel : nat) (data : slice) (w : world D) (bytes : list Z) :
  slice_view w data = Some bytes →
  ∃ clone w1,
    I2cTransmit fuel data w = I2cExchange fuel clone w1
    ∧ log w1 = log w
    ∧ slice_view w1 clone = Some bytes.
Proof.
  intros Hview.
  apply slice_view_Some in Hview as (arr & Harr & Hlen & ->).
  unfold I2cTransmit. unfold bind at 1. unfold slice_elems. rewrite Harr.
  destruct (Nat.leb_spec (off data + len data) (length arr)); [| lia].
  unfold bind at 1. unfold slice3. cbn [Nat.leb andb].
  unfold bind at 1. unfold append_bytes. cbn [ptr off len cap Nat.sub Nat.add].
  rewrite Harr.
  assert (length (take (len data) (drop (off data) arr)) = len data) as Hel
    by (rewrite length_take, length_drop; lia).
  set (elems := take (len data) (drop (off data) arr)) in *.
  destruct (Nat.leb_spec (length elems) 0) as [Hfit | Hgrow].
  - assert (elems = []) as Hnil by (apply length_zero_iff_nil; lia).
    rewrite Hnil. cbn [list_inserts length Nat.add].
    eexists _, _. split; [reflexivity |]. split; [done |].
    apply slice_view_Some. exists arr. cbn.
    rewrite list_insert_id by done. split; [done |]. split; [lia | done].
  - eexists _, _. split; [reflexivity |]. split; [done |].
    apply slice_view_Some. exists elems. cbn.
    split; [now apply list_lookup_middle |].
    split; [done |]. rewrite drop_0. symmetry. apply firstn_all.
Qed.

End ExchangeMore.

(** X7: with the FIFO register apart from the control register, when
    [I2cExchange] returns the bytes it wrote to the FIFO are the bytes the
    buffer showed before the call, in order, and the buffer shows after the
    call the low eight bits of each word the FIFO answered, in order; every
    other array of the heap, and the buffer's array outside the buffer, hold
    what they held. *)
Theorem I2cExchange_sends_buffer_and_stores_answers
    {D : Type} {W : Window D} (fuel : nat) (data : slice) (w w' : world D)
    (bytes : list Z) :
  csReg ≠ fifoReg →
  slice_view w data = Some bytes →
  I2cExchange fuel data w = Ok tt w' →
  fifo_writes (trace_since w w') = bytes
  ∧ slice_view w' data = Some (wrap8 <$> fifo_reads (trace_since w w'))
  ∧ ∀ q arr, heap w !! q = Some arr →
      ∃ arr', heap w' !! q = Some arr'
              ∧ length arr' = length arr
              ∧ ∀ j, (q ≠ ptr data ∨ j < off data ∨ off data + len data ≤ j)%nat →
                     arr' !! j = arr !! j.
Proof.
  intros Hne Hview Hrun.
  apply slice_view_Some in Hview as (arr & Harr & Hlen & ->).
  destruct (I2cExchange_Ok_data _ _ _ _ _ _ Hne Harr Hrun)
    as (evs & arr' & Hlog & Harr' & Hlen' & Hwr & Hrd & _ & _ & Hout).
  rewrite (trace_since_app _ _ _ Hlog).
  split; [exact Hwr |]. split.
  - apply slice_view_Some. exists arr'. split; [done |]. split; [lia | now symmetry].
  - intros q a Hq. destruct (decide (q = ptr data)) as [-> | Hq'].
    + assert (a = arr) as -> by congruence.
      exists arr'. split; [done |]. split; [done |].
      intros j [? | ?]; [done | now apply Hout].
    + pose proof (I2cExchange_world (fun _ => True) fuel data w) as [Hframe _].
      rewrite Hrun in Hframe. cbn [world_of] in Hframe.
      exists a. split; [now apply (heap_frame_other _ _ _ _ _ Hframe) | done].
Qed.

Lemma I2cExchange_data_witness :
  ∃ w', I2cExchange 1 one_byte (sim_world spi_ready [[0x41]]) = Ok tt w'
        ∧ fifo_writes (D := sim spi_ready)
            (trace_since (sim_world spi_ready [[0x41]]) w') = [0x41]
        ∧ slice_view w' one_byte
          = Some (wrap8 <$> fifo_reads (D := sim spi_ready)
                              (trace_since (sim_world spi_ready [[0x41]]) w')).
Proof.
  destruct (I2cExchange_returns 1 one_byte (sim_world spi_ready [[0x41]]))
    as [w' Hrun].
  { apply (sim_spi_responsive 0). }
  { exists [0x41]. split; [reflexivity | cbn; lia]. }
  exists w'. split; [exact Hrun |].
  destruct (I2cExchange_sends_buffer_and_stores_answers 1 one_byte
              (sim_world spi_ready [[0x41]]) w' [0x41] (sim_cs_ne_fifo spi_ready))
    as (Hwr & Hrd & _); [reflexivity | exact Hrun |].
  split; [exact Hwr | exact Hrd].
Defined.

(** X8: with the FIFO register apart from the control register,
    [I2cExchange] writes to the control register twice before the loop (the
    FIFO-clear bits, then transfer-active) and never inside it; it clears
    transfer-active in a third write exactly when it returns.  A call that
    hangs or panics leaves transfer-active set. *)
Theorem I2cExchange_clears_transfer_active_only_on_return
    {D : Type} {W : Window D} (fuel : nat) (data : slice) (w : world D) :
  csReg ≠ fifoReg →
  ∃ a b,
    (returned (I2cExchange fuel data w) →
     ∃ c, cs_writes (trace_since w (world_of (I2cExchange fuel data w)))
          = [Z.lor a clearTxRx; Z.lor b Exchange.ta; Z.ldiff c Exchange.ta]
          ∧ Z.testbit (Z.ldiff c Exchange.ta) 7 = false)
    ∧ (¬ returned (I2cExchange fuel data w) →
       cs_writes (trace_since w (world_of (I2cExchange fuel data w)))
       = [Z.lor a clearTxRx; Z.lor b Exchange.ta]
       ∧ Z.testbit (Z.lor b Exchange.ta) 7 = true).
Proof.
  intros Hne.
  destruct (I2cExchange_cs_writes fuel data w Hne) as (evs & a & b & Hlog & Hret & Hnot).
  rewrite (trace_since_app _ _ _ Hlog).
  exists a, b. split.
  - intros Hr. destruct (Hret Hr) as [c Hc]. exists c. split; [exact Hc |].
    unfold Exchange.ta. rewrite Z.ldiff_spec, testbit_shiftl_1 by lia.
    apply andb_false_r.
  - intros Hn. split; [exact (Hnot Hn) |].
    unfold Exchange.ta. rewrite Z.lor_spec, testbit_shiftl_1 by lia.
    apply orb_true_r.
Qed.

Lemma I2cExchange_transfer_active_witness :
  ∃ a b,
    cs_writes (D := sim bsc_ready)
      (trace_since (sim_world bsc_ready [[0x41]])
         (world_of (I2cExchange 3 one_byte (sim_world bsc_ready [[0x41]]))))
    = [Z.lor a clearTxRx; Z.lor b Exchange.ta]
    ∧ Z.testbit (Z.lor b Exchange.ta) 7 = true.
Proof.
  destruct (I2cExchange_clears_transfer_active_only_on_return 3 one_byte
              (sim_world bsc_ready [[0x41]]) (sim_cs_ne_fifo bsc_ready))
    as (a & b & _ & Hnot).
  exists a, b. apply Hnot. intros (? & ? & Heq). vm_compute in Heq. discriminate.
Defined.

(** X9: on a control register that is plain storage nothing ever raises a
    status bit.  If bit 18 of the register is clear, [I2cExchange] on a
    buffer that is not empty hangs in its first transmit wait, whatever the
    bound on the polls; if bit 16 is clear, [I2cExchange] on an empty buffer
    hangs in the wait for the end of the transfer. *)
Theorem I2cExchange_hangs_on_storage
    {D : Type} {W : Window D} (fuel : nat) (data : slice) (w : world D) :
  cs_is_storage →
  ((0 < len data)%nat → Z.testbit (cs_value w) 18 = false →
   ∃ w', I2cExchange fuel data w = Hang w')
  ∧ (len data = 0%nat → Z.testbit (cs_value w) 16 = false →
     ∃ w', I2cExchange fuel data w = Hang w').
Proof.
  intros HS.
  assert (∀ k, 0 ≤ k → k ≠ 4 → k ≠ 5 → k ≠ 7 →
               Z.testbit (cs_value w) k = false →
               Z.land (cs_value (world_of (exchange_begin w))) (Z.shiftl 1 k) = 0)
    as Hclear.
  { intros k Hk H4 H5 H7 Hbit. apply land_bit_clear; [done |].
    rewrite exchange_begin_storage by done.
    unfold clearTxRx, Exchange.ta.
    rewrite !Z.lor_spec, !testbit_shiftl_1, Hbit by lia.
    replace (5 =? k) with false by (symmetry; apply Z.eqb_neq; lia).
    replace (4 =? k) with false by (symmetry; apply Z.eqb_neq; lia).
    replace (7 =? k) with false by (symmetry; apply Z.eqb_neq; lia).
    reflexivity. }
  split.
  - intros Hlen Hbit. rewrite I2cExchange_unfold_at.
    destruct (len data) as [| n]; [lia |].
    cbn [exchange_loop]. unfold bind at 1. unfold exchange_byte. unfold bind at 1.
    destruct (wait_for_storage_hangs fuel Exchange.txd
                (world_of (exchange_begin w)) HS) as [w' ->]; [| eauto].
    apply (Hclear 18); (lia || done).
  - intros Hlen Hbit. rewrite I2cExchange_unfold_at, Hlen.
    cbn [exchange_loop ret].
    destruct (wait_for_storage_hangs fuel Exchange.done
                (world_of (exchange_begin w)) HS) as [w' ->]; [| eauto].
    apply (Hclear 16); (lia || done).
Qed.

Lemma I2cExchange_storage_witness :
  ∃ w', I2cExchange 5 one_byte (sim_world 0 [[0x41]]) = Hang w'.
Proof.
  apply (proj1 (I2cExchange_hangs_on_storage 5 one_byte (sim_world 0 [[0x41]])
                  sim0_cs_is_storage)); [apply Nat.lt_0_1 | reflexivity].
Defined.

(** X10: with the FIFO register apart from the control register, when
    [I2cTransmit] returns the bytes it wrote to the FIFO are the caller's
    bytes, in order; and on responsive hardware it returns. *)
Theorem I2cTransmit_sends_caller_bytes
    {D : Type} {W : Window D} (fuel : nat) (data : slice) (w : world D)
    (bytes : list Z) :
  csReg ≠ fifoReg →
  slice_view w data = Some bytes →
  (∀ w', I2cTransmit fuel data w = Ok tt w' →
         fifo_writes (trace_since w w') = bytes)
  ∧ (responsive fuel → returned (I2cTransmit fuel data w)).
Proof.
  intros Hne Hview.
  destruct (I2cTransmit_unfold fuel data w bytes Hview)
    as (clone & w1 & -> & Hlog1 & Hview1).
  split.
  - intros w' Hrun.
    apply slice_view_Some in Hview1 as (arr & Harr & Hlen & ->).
    destruct (I2cExchange_Ok_data _ _ _ _ _ _ Hne Harr Hrun)
      as (evs & _ & Hlog & _ & _ & Hwr & _).
    rewrite Hlog1 in Hlog. now rewrite (trace_since_app _ _ _ Hlog).
  - intros Hresp.
    apply slice_view_Some in Hview1 as (arr & Harr & Hlen & _).
    destruct (I2cExchange_returns fuel clone w1 Hresp) as [w' Hw'].
    { exists arr. done. }
    red. eauto.
Qed.

Lemma I2cTransmit_witness :
  (∀ w', I2cTransmit 1 one_byte (sim_world spi_ready [[0x41]]) = Ok tt w' →
         fifo_writes (D := sim spi_ready)
           (trace_since (sim_world spi_ready [[0x41]]) w') = [0x41])
  ∧ returned (I2cTransmit 1 one_byte (sim_world spi_ready [[0x41]])).
Proof.
  destruct (I2cTransmit_sends_caller_bytes 1 one_byte
              (sim_world spi_ready [[0x41]]) [0x41] (sim_cs_ne_fifo spi_ready))
    as (Hwr & Hret); [reflexivity |].
  split; [exact Hwr | apply Hret, (sim_spi_responsive 0)].
Defined.

(** X11: with the FIFO register apart from the control register and
    [0 ≤ n], the slice [I2cReceive] returns is over a fresh array, shows the
    low eight bits of each word the FIFO answered during the call, in
    order, and every array the heap held before the call holds what it
    held. *)
Theorem I2cReceive_returns_answers
    {D : Type} {W : Window D} (fuel : nat) (n : Z) (w w' : world D) (s : slice) :
  csReg ≠ fifoReg → 0 ≤ n →
  I2cReceive fuel n w = Ok s w' →
  slice_view w' s = Some (wrap8 <$> fifo_reads (trace_since w w'))
  ∧ ptr s = length (heap w)
  ∧ ∀ q arr, heap w !! q = Some arr → heap w' !! q = Some arr.
Proof.
  intros Hne Hn Hrun.
  set (data := {| ptr := length (heap w); off := 0;
                  len := Z.to_nat n; cap := Z.to_nat n |}).
  set (w0 := with_heap w (heap w ++ [replicate (Z.to_nat n) 0])).
  assert (I2cReceive fuel n w = bind (I2cExchange fuel data) (fun _ => ret data) w0)
    as Heq.
  { unfold I2cReceive. unfold bind at 1. unfold make_bytes.
    now replace (n <? 0) with false by (symmetry; apply Z.ltb_ge; lia). }
  rewrite Heq in Hrun.
  apply bind_inv_Ok in Hrun as ([] & w1 & Hx & Hret).
  injection Hret as <- <-.
  assert (heap w0 !! ptr data = Some (replicate (Z.to_nat n) 0)) as Harr
    by (cbn; now apply list_lookup_middle).
  destruct (I2cExchange_Ok_data _ _ _ _ _ _ Hne Harr Hx)
    as (evs & arr' & Hlog & Harr' & Hlen' & _ & Hrd & _ & _ & _).
  assert (log w1 = log w ++ evs) as Hlog' by exact Hlog.
  rewrite (trace_since_app _ _ _ Hlog').
  split; [| split; [reflexivity |]].
  - apply slice_view_Some. exists arr'. split; [done |].
    rewrite length_replicate in Hlen'. split; [cbn; lia | now symmetry].
  - intros q a Hq.
    pose proof (I2cExchange_world (fun _ => True) fuel data w0) as [Hframe _].
    rewrite Hx in Hframe. cbn [world_of] in Hframe.
    eapply heap_frame_other; [exact Hframe | |].
    + cbn. apply lookup_lt_Some in Hq. lia.
    + cbn. now apply lookup_app_l_Some.
Qed.

Lemma I2cReceive_answers_witness :
  ∃ s w', I2cReceive 1 2 (sim_world spi_ready [[0x41]]) = Ok s w'
          ∧ slice_view w' s
            = Some (wrap8 <$> fifo_reads (D := sim spi_ready)
                                (trace_since (sim_world spi_ready [[0x41]]) w'))
          ∧ ptr s = 1%nat.
Proof.
  destruct (I2cReceive 1 2 (sim_world spi_ready [[0x41]])) as [s w' | w' | w'] eqn:Hrun.
  - exists s, w'. split; [reflexivity |].
    destruct (I2cReceive_returns_answers 1 2 (sim_world spi_ready [[0x41]]) w' s
                (sim_cs_ne_fifo spi_ready)) as (Hrd & Hptr & _);
      [lia | exact Hrun |].
    split; [exact Hrd | exact Hptr].
  - vm_compute in Hrun. discriminate.
  - vm_compute in Hrun. discriminate.
Defined.

(** * Further properties of the battery monitor *)

Section History.
Import PiSugar.

Lemma appendInt_inv (table : list Z) (value maxSize : Z) (r : list Z) :
  1 ≤ maxSize → appendInt table value maxSize = Some r →
  (Z.of_nat (length table) ≤ maxSize → Z.of_nat (length r) ≤ maxSize)
  ∧ (Z.of_nat (length table) = maxSize → r = drop 1 table ++ [value])
  ∧ (Z.of_nat (length table) ≠ maxSize → r = table ++ [value]).
Proof.
  intros Hmax. unfold appendInt.
  destruct (Z.eqb_spec (Z.of_nat (length table)) maxSize) as [Hfull | Hroom].
  - rewrite slice_from_1 by lia. cbn. intros [= <-].
    rewrite length_app, length_drop. cbn. repeat split; (lia || done).
  - rewrite slice_from_0. cbn. intros [= <-].
    rewrite length_app. cbn. repeat split; (lia || done).
Qed.

Lemma appendFloat64_inv (table : list float) (value : float) (maxSize : Z)
    (r : list float) :
  1 ≤ maxSize → appendFloat64 table value maxSize = Some r →
  (Z.of_nat (length table) ≤ maxSize → Z.of_nat (length r) ≤ maxSize)
  ∧ (Z.of_nat (length table) = maxSize → r = drop 1 table ++ [value])
  ∧ (Z.of_nat (length table) ≠ maxSize → r = table ++ [value]).
Proof.
  intros Hmax. unfold appendFloat64.
  destruct (Z.eqb_spec (Z.of_nat (length table)) maxSize) as [Hfull | Hroom].
  - rewrite slice_from_1 by lia. cbn. intros [= <-].
    rewrite length_app, length_drop. cbn. repeat split; (lia || done).
  - rewrite slice_from_0. cbn. intros [= <-].
    rewrite length_app. cbn. repeat split; (lia || done).
Qed.

Lemma smooth_int_step cnt reading lm lh ld v lm' lh' ld' :
  smooth_int cnt reading lm lh ld = Some (v, lm', lh', ld') →
  window_step 0 cnt lm lm' lh lh' ld ld'.
Proof.
  unfold smooth_int, window_step. intros Hrun.
  destruct (appendInt lm reading secondsInAMinute) as [lm1 |] eqn:H1;
    [| discriminate].
  apply appendInt_inv in H1 as (Hb1 & _); [| done].
  cbn [mbind option_bind] in Hrun.
  destruct (Z.eqb_spec (Z.rem cnt 60) 0) as [H60 | H60].
  - destruct (appendFloat64 lh (avgInt lm1) minutesInAnHour) as [lh1 |] eqn:H2;
      [| discriminate].
    apply appendFloat64_inv in H2 as (Hb2 & _); [| done].
    cbn [mbind option_bind] in Hrun.
    destruct (Z.eqb_spec (Z.rem cnt 1440) 0) as [H1440 | H1440].
    + destruct (appendFloat64 ld (avgFloat64 lh1) (numberOfDays * hoursInADay))
        as [ld1 |] eqn:H3; [| discriminate].
      apply appendFloat64_inv in H3 as (Hb3 & _); [| done].
      cbn [mbind option_bind] in Hrun. injection Hrun as <- <- <- <-.
      repeat split; (done || (unfold hoursInADay, numberOfDays in *; lia)).
    + injection Hrun as <- <- <- <-. repeat split; done.
  - injection Hrun as <- <- <- <-. repeat split; done.
Qed.

Lemma smooth_float_step cnt reading lm lh ld v lm' lh' ld' :
  smooth_float cnt reading lm lh ld = Some (v, lm', lh', ld') →
  window_step 0 cnt lm lm' lh lh' ld ld'.
Proof.
  unfold smooth_float, window_step. intros Hrun.
  destruct (appendFloat64 lm reading secondsInAMinute) as [lm1 |] eqn:H1;
    [| discriminate].
  apply appendFloat64_inv in H1 as (Hb1 & _); [| done].
  cbn [mbind option_bind] in Hrun.
  destruct (Z.eqb_spec (Z.rem cnt 60) 0) as [H60 | H60].
  - destruct (appendFloat64 lh (avgFloat64 lm1) minutesInAnHour) as [lh1 |] eqn:H2;
      [| discriminate].
    apply appendFloat64_inv in H2 as (Hb2 & _); [| done].
    cbn [mbind option_bind] in Hrun.
    destruct (Z.eqb_spec (Z.rem cnt 1440) 0) as [H1440 | H1440].
    + destruct (appendFloat64 ld (avgFloat64 lh1) (numberOfDays * hoursInADay))
        as [ld1 |] eqn:H3; [| discriminate].
      apply appendFloat64_inv in H3 as (Hb3 & _); [| done].
      cbn [mbind option_bind] in Hrun. injection Hrun as <- <- <- <-.
      repeat split; (done || (unfold hoursInADay, numberOfDays in *; lia)).
    + injection Hrun as <- <- <- <-. repeat split; done.
  - injection Hrun as <- <- <- <-. repeat split; done.
Qed.

Lemma window_step_keep {A : Type} (code cnt : Z) (lm : list A) (lh ld : list float) :
  window_step code cnt lm lm lh lh ld ld.
Proof. unfold window_step. repeat split; done. Qed.

Lemma window_step_code {A : Type} (code cnt : Z)
    (lm lm' : list A) (lh lh' ld ld' : list float) :
  code = 0 → window_step 0 cnt lm lm' lh lh' ld ld' →
  window_step code cnt lm lm' lh lh' ld ld'.
Proof. now intros ->. Qed.

(** One guarded block of [Refresh] over a window of integers. *)
Lemma int_block_step (code cnt : Z) (b : option Z) (f : Z → Z) (old : Z)
    (lm : list Z) (lh ld : list float) v lm' lh' ld' :
  (if code =? 0 then b0 ← b; smooth_int cnt (f b0) lm lh ld
   else Some (old, lm, lh, ld)) = Some (v, lm', lh', ld') →
  window_step code cnt lm lm' lh lh' ld ld'.
Proof.
  destruct (Z.eqb_spec code 0) as [Hc | Hc].
  - destruct b as [b0 |]; [| discriminate]. cbn [mbind option_bind].
    intros Hrun. apply window_step_code; [done |]. eapply smooth_int_step, Hrun.
  - intros [= <- <- <- <-]. apply window_step_keep.
Qed.

Lemma float_block_step (code cnt : Z) (fresh : option (float * list float * list float * list float))
    (old : float) (lm lh ld : list float) v lm' lh' ld' :
  (∀ r, fresh = Some r →
        window_step 0 cnt lm r.1.1.2 lh r.1.2 ld r.2) →
  (if code =? 0 then fresh else Some (old, lm, lh, ld)) = Some (v, lm', lh', ld') →
  window_step code cnt lm lm' lh lh' ld ld'.
Proof.
  intros Hfresh. destruct (Z.eqb_spec code 0) as [Hc | Hc].
  - intros Hrun. apply window_step_code; [done |]. exact (Hfresh _ Hrun).
  - intros [= <- <- <- <-]. apply window_step_keep.
Qed.

Ltac invert_block H name :=
  match type of H with
  | (?blk ≫= _) = Some _ =>
      destruct blk as [[[[? ?] ?] ?] |] eqn:name; [| discriminate H];
      cbn [mbind option_bind] in H
  end.

(** What one call of [Refresh] does to the counter, the reason codes and
    the nine windows. *)
Lemma Refresh_steps {B : Type}
    (I2cReadRegister : B → Z → list Z → Z → Z * list Z * B) (g g' : state B) :
  Refresh I2cReadRegister g = Some g' →
  counter g' = wrap_int (counter g + 1)
  ∧ ∃ c1 c2 c3 c4,
      codes g' = codes g ++ [(temperatureReg, c1); (voltageReg, c2);
                             (batteryChargeReg, c3); (powerReg, c4)]
      ∧ window_step c1 (counter g')
          (lastMinuteTemperature g) (lastMinuteTemperature g')
          (lastHourTemperature g) (lastHourTemperature g')
          (lastDayTemperature g) (lastDayTemperature g')
      ∧ window_step c2 (counter g')
          (lastMinuteVoltage g) (lastMinuteVoltage g')
          (lastHourVoltage g) (lastHourVoltage g')
          (lastDayVoltage g) (lastDayVoltage g')
      ∧ window_step c3 (counter g')
          (lastMinuteCharge g) (lastMinuteCharge g')
          (lastHourCharge g) (lastHourCharge g')
          (lastDayCharge g) (lastDayCharge g').
Proof.
  unfold Refresh. intros Hrun.
  destruct (I2cReadRegister (bus g) temperatureReg [0; 0] 1) as [[c1 s1] b1].
  cbv zeta in Hrun. invert_block Hrun HT.
  destruct (I2cReadRegister b1 voltageReg (fill [0; 0] s1) 2) as [[c2 s2] b2].
  invert_block Hrun HV.
  destruct (I2cReadRegister b2 batteryChargeReg (fill (fill [0; 0] s1) s2) 1)
    as [[c3 s3] b3].
  invert_block Hrun HC.
  destruct (I2cReadRegister b3 powerReg (fill (fill (fill [0; 0] s1) s2) s3) 1)
    as [[c4 s4] b4].
  match type of Hrun with
  | (?blk ≫= _) = Some _ => destruct blk as [p' |]; [| discriminate Hrun]
  end.
  cbn [mbind option_bind] in Hrun. injection Hrun as <-.
  cbn [counter codes lastMinuteTemperature lastHourTemperature lastDayTemperature
       lastMinuteVoltage lastHourVoltage lastDayVoltage
       lastMinuteCharge lastHourCharge lastDayCharge].
  split; [reflexivity |]. exists c1, c2, c3, c4. split; [reflexivity |].
  split; [| split].
  - eapply int_block_step with (f := fun b => b - 40). exact HT.
  - eapply float_block_step; [| exact HV].
    intros [[[v lm'] lh'] ld'] Hfresh. cbn [fst snd].
    destruct (fill (fill [0; 0] s1) s2 !! 0%nat) as [x0 |]; [| discriminate].
    destruct (fill (fill [0; 0] s1) s2 !! 1%nat) as [x1 |]; [| discriminate].
    cbn [mbind option_bind] in Hfresh. eapply smooth_float_step, Hfresh.
  - eapply int_block_step with (f := fun b => b). exact HC.
Qed.

End History.

(** X12: for a capacity of at least 1, appending the values [xs] one by
    one to the empty table with [appendInt] never panics and leaves the
    last [maxSize] of them, in order (all of them while there are at most
    [maxSize]). *)
Theorem appendInt_keeps_last_values (maxSize : Z) (xs : list Z) :
  1 ≤ maxSize →
  fold_left (fun acc x => table ← acc; PiSugar.appendInt table x maxSize) xs (Some [])
  = Some (drop (length xs - Z.to_nat maxSize) xs).
Proof.
  intros Hmax.
  assert (∀ ys table,
            Z.of_nat (length table) ≤ maxSize →
            fold_left (fun acc x => table ← acc; PiSugar.appendInt table x maxSize)
                      ys (Some table)
            = Some (drop (length (table ++ ys) - Z.to_nat maxSize) (table ++ ys)))
    as Hgen.
  { induction ys as [| y ys IH]; intros table Hlen.
    - cbn [fold_left]. rewrite app_nil_r.
      replace (length table - Z.to_nat maxSize)%nat with 0%nat by lia. done.
    - cbn [fold_left mbind option_bind].
      destruct (appendInt_total table y maxSize Hmax) as [r Hr]. rewrite Hr.
      destruct (appendInt_inv table y maxSize r Hmax Hr) as (Hb & Hfull & Hroom).
      rewrite IH by auto. f_equal.
      destruct (Z.eq_dec (Z.of_nat (length table)) maxSize) as [He | He].
      + rewrite (Hfull He). destruct table as [| t0 table]; [cbn in He; lia |].
        change (drop 1 (t0 :: table)) with table.
        rewrite <- app_assoc.
        change ([y] ++ ys) with (y :: ys).
        change ((t0 :: table) ++ y :: ys) with (t0 :: (table ++ y :: ys)).
        set (l := table ++ y :: ys).
        assert (Z.to_nat maxSize ≤ length l)%nat as Hl
          by (unfold l; rewrite length_app; cbn [length] in *; lia).
        cbn [length].
        replace (S (length l) - Z.to_nat maxSize)%nat
          with (S (length l - Z.to_nat maxSize)) by lia.
        reflexivity.
      + rewrite (Hroom He), <- app_assoc. reflexivity. }
  rewrite (Hgen xs []) by (cbn; lia). reflexivity.
Qed.

Lemma appendInt_keeps_last_witness :
  fold_left (fun acc x => table ← acc; PiSugar.appendInt table x 3) [1; 2; 3; 4; 5] (Some [])
  = Some (drop (length [1; 2; 3; 4; 5] - Z.to_nat 3) [1; 2; 3; 4; 5]).
Proof. apply (appendInt_keeps_last_values 3 [1; 2; 3; 4; 5]). lia. Defined.

(** X13: the history windows start within their capacities (60 seconds,
    60 minutes, 168 hours), and a call of [Refresh] that finds them within
    their capacities leaves them so, whatever the bus answers. *)
Theorem Refresh_keeps_windows_bounded {B : Type}
    (I2cReadRegister : B → Z → list Z → Z → Z * list Z * B)
    (b : B) (g g' : PiSugar.state B) :
  PiSugar.windows_bounded (PiSugar.initial b)
  ∧ (PiSugar.windows_bounded g →
     PiSugar.Refresh I2cReadRegister g = Some g' →
     PiSugar.windows_bounded g').
Proof.
  split.
  - unfold PiSugar.windows_bounded. cbn. repeat split; done.
  - intros ((HC1 & HC2 & HC3) & (HV1 & HV2 & HV3) & (HT1 & HT2 & HT3)) Hrun.
    destruct (Refresh_steps _ _ _ Hrun) as (_ & c1 & c2 & c3 & c4 & _ & HT & HV & HC).
    destruct HT as (T1 & T2 & T3 & _), HV as (V1 & V2 & V3 & _),
      HC as (C1 & C2 & C3 & _).
    unfold PiSugar.windows_bounded. repeat split; auto.
Qed.

Lemma Refresh_bounded_witness :
  ∃ g', PiSugar.Refresh PiSugar.scripted
          (PiSugar.initial [(0, [70]); (1, []); (0, [88]); (1, [0x80])]) = Some g'
        ∧ PiSugar.windows_bounded g'.
Proof.
  destruct (PiSugar.Refresh PiSugar.scripted
              (PiSugar.initial [(0, [70]); (1, []); (0, [88]); (1, [0x80])]))
    as [g' |] eqn:Hrun; [| vm_compute in Hrun; discriminate].
  exists g'. split; [reflexivity |]. revert Hrun.
  apply (Refresh_keeps_windows_bounded PiSugar.scripted
           [(0, [70]); (1, []); (0, [88]); (1, [0x80])]
           (PiSugar.initial [(0, [70]); (1, []); (0, [88]); (1, [0x80])]) g').
  apply (Refresh_keeps_windows_bounded PiSugar.scripted
           [(0, [70]); (1, []); (0, [88]); (1, [0x80])]
           (PiSugar.initial [(0, [70]); (1, []); (0, [88]); (1, [0x80])]) g').
Defined.

(** X14: a call of [Refresh] adds one to the counter (wrapping as a Go
    int); unless the new counter is a multiple of 60 it leaves the six hour
    and day windows as they were, and unless it is a multiple of 1440 it
    leaves the three day windows as they were. *)
Theorem Refresh_gates_hour_and_day_windows {B : Type}
    (I2cReadRegister : B → Z → list Z → Z → Z * list Z * B)
    (g g' : PiSugar.state B) :
  PiSugar.Refresh I2cReadRegister g = Some g' →
  PiSugar.counter g' = wrap_int (PiSugar.counter g + 1)
  ∧ (Z.rem (PiSugar.counter g') 60 ≠ 0 →
     PiSugar.lastHourTemperature g' = PiSugar.lastHourTemperature g
     ∧ PiSugar.lastHourVoltage g' = PiSugar.lastHourVoltage g
     ∧ PiSugar.lastHourCharge g' = PiSugar.lastHourCharge g)
  ∧ (Z.rem (PiSugar.counter g') 1440 ≠ 0 →
     PiSugar.lastDayTemperature g' = PiSugar.lastDayTemperature g
     ∧ PiSugar.lastDayVoltage g' = PiSugar.lastDayVoltage g
     ∧ PiSugar.lastDayCharge g' = PiSugar.lastDayCharge g).
Proof.
  intros Hrun.
  destruct (Refresh_steps _ _ _ Hrun) as (Hcnt & c1 & c2 & c3 & c4 & _ & HT & HV & HC).
  destruct HT as (_ & _ & _ & _ & T60 & T1440), HV as (_ & _ & _ & _ & V60 & V1440),
    HC as (_ & _ & _ & _ & C60 & C1440).
  split; [exact Hcnt |]. split.
  - intros H60. destruct (T60 H60), (V60 H60), (C60 H60). done.
  - intros H1440. rewrite (T1440 H1440), (V1440 H1440), (C1440 H1440). done.
Qed.

Lemma Refresh_gates_witness :
  ∃ g', PiSugar.Refresh PiSugar.scripted
          (PiSugar.initial [(0, [70]); (0, [16; 104]); (0, [88]); (0, [0x80])]) = Some g'
        ∧ PiSugar.counter g' = 1
        ∧ PiSugar.lastHourTemperature g' = []
        ∧ PiSugar.lastDayCharge g' = [].
Proof.
  destruct (PiSugar.Refresh PiSugar.scripted
              (PiSugar.initial [(0, [70]); (0, [16; 104]); (0, [88]); (0, [0x80])]))
    as [g' |] eqn:Hrun; [| vm_compute in Hrun; discriminate].
  exists g'. split; [reflexivity |].
  destruct (Refresh_gates_hour_and_day_windows PiSugar.scripted _ g' Hrun)
    as (Hcnt & H60 & H1440).
  split; [exact Hcnt |].
  rewrite Hcnt in H60, H1440.
  destruct H60 as (-> & _); [discriminate |].
  destruct H1440 as (_ & _ & ->); [discriminate |].
  split; reflexivity.
Defined.

(** X15: a read of [Refresh] that answers a reason code other than 0 adds
    no sample: the minute, hour and day windows of that quantity are left
    as they were. *)
Theorem Refresh_failed_read_adds_no_sample {B : Type}
    (I2cReadRegister : B → Z → list Z → Z → Z * list Z * B)
    (g g' : PiSugar.state B) (c1 c2 c3 c4 : Z) :
  PiSugar.Refresh I2cReadRegister g = Some g' →
  PiSugar.codes g' =
    PiSugar.codes g ++ [(PiSugar.temperatureReg, c1); (PiSugar.voltageReg, c2);
                        (PiSugar.batteryChargeReg, c3); (PiSugar.powerReg, c4)] →
  (c1 ≠ 0 →
   PiSugar.lastMinuteTemperature g' = PiSugar.lastMinuteTemperature g
   ∧ PiSugar.lastHourTemperature g' = PiSugar.lastHourTemperature g
   ∧ PiSugar.lastDayTemperature g' = PiSugar.lastDayTemperature g)
  ∧ (c2 ≠ 0 →
     PiSugar.lastMinuteVoltage g' = PiSugar.lastMinuteVoltage g
     ∧ PiSugar.lastHourVoltage g' = PiSugar.lastHourVoltage g
     ∧ PiSugar.lastDayVoltage g' = PiSugar.lastDayVoltage g)
  ∧ (c3 ≠ 0 →
     PiSugar.lastMinuteCharge g' = PiSugar.lastMinuteCharge g
     ∧ PiSugar.lastHourCharge g' = PiSugar.lastHourCharge g
     ∧ PiSugar.lastDayCharge g' = PiSugar.lastDayCharge g).
Proof.
  intros Hrun Hcodes.
  destruct (Refresh_steps _ _ _ Hrun)
    as (_ & d1 & d2 & d3 & d4 & Hcodes' & HT & HV & HC).
  rewrite Hcodes in Hcodes'. apply app_inv_head in Hcodes'.
  injection Hcodes' as -> -> -> ->.
  destruct HT as (_ & _ & _ & TF & _), HV as (_ & _ & _ & VF & _),
    HC as (_ & _ & _ & CF & _).
  auto.
Qed.

Lemma Refresh_failed_read_witness :
  ∃ g', PiSugar.Refresh PiSugar.scripted
          (PiSugar.initial [(0, [70]); (1, []); (0, [88]); (1, [0x80])]) = Some g'
        ∧ PiSugar.codes g' =
            [(PiSugar.temperatureReg, 0); (PiSugar.voltageReg, 1);
             (PiSugar.batteryChargeReg, 0); (PiSugar.powerReg, 1)]
        ∧ PiSugar.lastMinuteVoltage g' = [].
Proof.
  destruct (PiSugar.Refresh PiSugar.scripted
              (PiSugar.initial [(0, [70]); (1, []); (0, [88]); (1, [0x80])]))
    as [g' |] eqn:Hrun; [| vm_compute in Hrun; discriminate].
  assert (PiSugar.codes g' =
            PiSugar.codes (PiSugar.initial [(0, [70]); (1, []); (0, [88]); (1, [0x80])])
            ++ [(PiSugar.temperatureReg, 0); (PiSugar.voltageReg, 1);
                (PiSugar.batteryChargeReg, 0); (PiSugar.powerReg, 1)]) as Hcodes.
  { vm_compute in Hrun. injection Hrun as <-. reflexivity. }
  exists g'. split; [reflexivity |]. split; [exact Hcodes |].
  destruct (Refresh_failed_read_adds_no_sample PiSugar.scripted _ g' 0 1 0 1
              Hrun Hcodes) as (_ & HV & _).
  destruct HV as (-> & _); [discriminate | reflexivity].
Defined.

(** Every window of 1 to 60 equal readings between -40 and 255, checked
    one by one. *)
Lemma avgInt_constant_checked :
  forallb (fun k =>
    forallb (fun i =>
      Z_of_float64 (PiSugar.avgInt (replicate k (Z.of_nat i - 40))) =? Z.of_nat i - 40)
      (seq 0 296))
    (seq 1 60) = true.
Proof. vm_compute. reflexivity. Qed.

(** X16: over a window of 1 to 60 equal readings, each between -40 and
    255 (what a temperature or charge byte can give), the integer that
    [Refresh] stores, [int(avgInt(window))], is that reading: smoothing
    does not disturb a steady value, and a single sample is stored as it
    is. *)
Theorem avgInt_of_steady_window (k : nat) (v : Z) :
  (1 ≤ k ≤ 60)%nat → -40 ≤ v ≤ 255 →
  Z_of_float64 (PiSugar.avgInt (replicate k v)) = v.
Proof.
  intros Hk Hv.
  pose proof avgInt_constant_checked as Hall.
  rewrite forallb_forall in Hall.
  specialize (Hall k). rewrite forallb_forall in Hall.
  assert (In k (seq 1 60)) as Hin by (apply in_seq; lia).
  specialize (Hall Hin (Z.to_nat (v + 40))).
  assert (In (Z.to_nat (v + 40)) (seq 0 296)) as Hin' by (apply in_seq; lia).
  specialize (Hall Hin'). apply Z.eqb_eq in Hall.
  replace (Z.of_nat (Z.to_nat (v + 40)) - 40) with v in Hall by lia.
  exact Hall.
Qed.

Lemma avgInt_steady_witness :
  Z_of_float64 (PiSugar.avgInt (replicate 60 (-7))) = -7.
Proof. apply (avgInt_of_steady_window 60 (-7)); lia. Defined.
